(** * Page-range expressions: [PageRange::parse] (src/util/PageRange.cpp)

    A shallow embedding of the parser of page-range expressions and the
    properties of its result.  The parser uses three library facilities,
    modelled here by what the C++ standard says of them:

    - [std::regex] (ECMAScript grammar) with [std::regex_match]: a
      backtracking matcher with greedy quantifiers and capture groups;
    - [std::sregex_token_iterator] with sub-match [-1]: the stretches of
      the input between the matches of the separator expression;
    - [std::from_chars] on [size_t].

    [size_t] is taken as a 64-bit unsigned integer, a [Z] with its
    wrap-around written out.  Characters are [char], classified as the
    classic "C" locale does. *)

From Stdlib Require Import ZArith List Ascii String Bool Lia.
From Stdlib Require Floats.PrimFloat.
Import ListNotations.

Local Open Scope Z_scope.

(** ** Characters and strings *)

(** A [std::string] is a sequence of [char]. *)
Definition cstring : Type := list ascii.

(** The characters of a string literal. *)
Definition str (s : string) : cstring := list_ascii_of_string s.

Definition code (a : ascii) : Z := Z.of_N (N_of_ascii a).

(** [\s]: space, and the control characters from tab to carriage return. *)
Definition isspace (a : ascii) : bool :=
  (code a =? 32) || ((9 <=? code a) && (code a <=? 13)).

(** [\d]: the ten decimal digits. *)
Definition isdigit (a : ascii) : bool :=
  (48 <=? code a) && (code a <=? 57).

(** The characters the expression [separators], [[,;:]], matches. *)
Definition is_separator (a : ascii) : bool :=
  (code a =? 44) || (code a =? 59) || (code a =? 58).

Fixpoint take_while (p : ascii -> bool) (s : cstring) : cstring :=
  match s with
  | [] => []
  | a :: t => if p a then a :: take_while p t else []
  end.

Fixpoint drop_while (p : ascii -> bool) (s : cstring) : cstring :=
  match s with
  | [] => []
  | a :: t => if p a then drop_while p t else s
  end.

(** ** [size_t] *)

Definition SIZE_MAX : Z := 2 ^ 64 - 1.

Definition wrap (x : Z) : Z := x mod 2 ^ 64.

Definition in_size_t (x : Z) : Prop := 0 <= x <= SIZE_MAX.

(** ** [std::from_chars] *)

Inductive errc : Type :=
| errc_ok
| errc_invalid_argument
| errc_result_out_of_range.

Definition digit_value (a : ascii) : Z := code a - 48.

(** The number a sequence of decimal digits denotes. *)
Definition decimal (ds : cstring) : Z :=
  fold_left (fun acc a => 10 * acc + digit_value a) ds 0.

(** [std::from_chars(first, last, value)] for an unsigned [value], base 10:
    the longest prefix of digits is read (no sign is recognised); [value]
    is assigned only when there is such a prefix and its number fits the
    type, and is left as it was otherwise.  The result is the error code
    and the content of [value] afterwards. *)
Definition from_chars (tok : cstring) (value : Z) : errc * Z :=
  match take_while isdigit tok with
  | [] => (errc_invalid_argument, value)
  | ds => if decimal ds <=? SIZE_MAX
          then (errc_ok, decimal ds)
          else (errc_result_out_of_range, value)
  end.

(** ** [std::regex] and [std::regex_match] *)

Inductive regex : Type :=
| Chr (c : ascii)                 (* a literal character *)
| Class (p : ascii -> bool)       (* a character class escape *)
| Seq (r1 r2 : regex)             (* concatenation *)
| Star (r : regex)                (* r*, greedy *)
| Plus (r : regex)                (* r+, greedy *)
| Group (i : nat) (r : regex).    (* the i-th capturing group *)

(** The sub-matches recorded so far, latest first. *)
Definition captures : Type := list (nat * cstring).

Definition continuation : Type := cstring -> captures -> option captures.

(** Iterations of a greedy [r*]: one more iteration of [m] is tried first,
    and an iteration that consumes nothing is refused; when no further
    iteration leads to a match, the rest of the expression goes on from
    here.  [fuel] bounds the iterations by the length of the input. *)
Fixpoint star_loop (m : cstring -> captures -> continuation -> option captures)
    (k : continuation) (fuel : nat) (s : cstring) (c : captures)
    : option captures :=
  match fuel with
  | O => k s c
  | S f =>
      match m s c (fun s' c' =>
                     if (List.length s' <? List.length s)%nat
                     then star_loop m k f s' c' else None) with
      | Some r => Some r
      | None => k s c
      end
  end.

(** Backtracking matcher: [rmatch r s c k] matches [r] at the start of [s]
    and hands what is left to [k]; the first alternative for which [k]
    succeeds is the match. *)
Fixpoint rmatch (r : regex) (s : cstring) (c : captures) (k : continuation)
    {struct r} : option captures :=
  match r with
  | Chr x =>
      match s with
      | a :: t => if Ascii.eqb a x then k t c else None
      | [] => None
      end
  | Class p =>
      match s with
      | a :: t => if p a then k t c else None
      | [] => None
      end
  | Seq r1 r2 => rmatch r1 s c (fun s' c' => rmatch r2 s' c' k)
  | Star r1 => star_loop (rmatch r1) k (List.length s) s c
  | Plus r1 =>
      rmatch r1 s c (fun s' c' => star_loop (rmatch r1) k (List.length s') s' c')
  | Group i r1 =>
      rmatch r1 s c
        (fun s' c' => k s' ((i, firstn (List.length s - List.length s') s) :: c'))
  end.

(** The match has to reach the end of the input. *)
Definition at_end : continuation :=
  fun s c => match s with [] => Some c | _ :: _ => None end.

(** [std::regex_match(str, match, r)]: [Some] of the sub-matches when the
    whole of [str] matches. *)
Definition regex_match (s : cstring) (r : regex) : option captures :=
  rmatch r s [] at_end.

(** [match[i].str()]: the text of the i-th group, empty when it took no
    part in the match. *)
Fixpoint sub_match (c : captures) (i : nat) : cstring :=
  match c with
  | [] => []
  | (j, t) :: c' => if Nat.eqb i j then t else sub_match c' i
  end.

(** ** [std::sregex_token_iterator] with sub-match -1 *)

(** Every match of [separators] is one character.  From the start of the
    input on: the text before each separator is a token,
    and the text after the last one is a token only when it is not empty.
    [cur] is the text since the last separator, latest character first. *)
Fixpoint tokens_from (cur : cstring) (s : cstring) : list cstring :=
  match s with
  | [] => match cur with [] => [] | _ :: _ => [rev cur] end
  | a :: t =>
      if is_separator a then rev cur :: tokens_from [] t
      else tokens_from (a :: cur) t
  end.

(** An input without a separator is one token, the whole input. *)
Definition tokens (s : cstring) : list cstring :=
  if existsb is_separator s then tokens_from [] s else [s].

(** ** [PageRange] *)

Module PageRange.

(** Modelled from the spec: the declaration of [PageRangeEntry], which is
    in util/PageRange.h; "a value type with two fields, first and last,
    both non-negative integers".  Here both are [size_t], as the
    comparisons with [pageCount] have them.  What its default constructor
    leaves in the two fields is a parameter of the parser, [entry0]. *)
Record PageRangeEntry : Type := mkEntry { first : Z; last : Z }.

Inductive exception_class : Type :=
| logic_error
| invalid_argument.

(** A thrown exception: its class and its message. *)
Record exception : Type := mkExn { class : exception_class; what : string }.

Definition InvalidConfiguration : exception :=
  mkExn logic_error "PageRange::parse(): pageCount is zero.".
Definition InvalidRange : exception :=
  mkExn invalid_argument "PageRange::parse(): invalid page range.".
Definition OutOfRange : exception :=
  mkExn invalid_argument
    "PageRange::parse(): given page number is larger than maximum count.".
Definition InvalidOrder : exception :=
  mkExn invalid_argument
    "PageRange::parse(): interval bounds must be in increasing order.".
Definition InvalidPageNumber : exception :=
  mkExn invalid_argument "PageRange::parse(): page numbers start with 1".

Definition result (A : Type) : Type := (exception + A)%type.

Definition ws : regex := Star (Class isspace).
Definition number (i : nat) : regex := Group i (Plus (Class isdigit)).
Definition dash : regex := Chr "-".

Declare Scope regex_scope.
Delimit Scope regex_scope with regex.
Notation "r1 ;; r2" := (Seq r1 r2)
  (at level 61, right associativity) : regex_scope.

Local Open Scope regex_scope.

Definition singlePage : regex := ws ;; number 1 ;; ws.
Definition rightOpenRange : regex := ws ;; number 1 ;; ws ;; dash ;; ws.
Definition leftOpenRange : regex := ws ;; dash ;; ws ;; number 1 ;; ws.
Definition pageRange : regex :=
  ws ;; number 1 ;; ws ;; dash ;; ws ;; number 2 ;; ws.
Definition bothOpenRange : regex := ws ;; dash ;; ws.

Local Close Scope regex_scope.

(** The if-else chain of the loop body: which of the five cases the token
    is, and the bounds it gives, counted from 1.  [entry0] is the
    default-constructed [PageRangeEntry] the body starts from; the results
    of [from_chars] are not looked at. *)
Definition recognise (entry0 : PageRangeEntry) (pageCount : Z) (s : cstring)
    : result PageRangeEntry :=
  match regex_match s singlePage with
  | Some m =>
      let token := sub_match m 1 in
      let f := snd (from_chars token (first entry0)) in
      inr (mkEntry f f)
  | None =>
  match regex_match s rightOpenRange with
  | Some m =>
      let token := sub_match m 1 in
      let f := snd (from_chars token (first entry0)) in
      inr (mkEntry f pageCount)
  | None =>
  match regex_match s leftOpenRange with
  | Some m =>
      let token := sub_match m 1 in
      let l := snd (from_chars token (last entry0)) in
      inr (mkEntry 1 l)
  | None =>
  match regex_match s pageRange with
  | Some m =>
      let tokenFirst := sub_match m 1 in
      let tokenLast := sub_match m 2 in
      let f := snd (from_chars tokenFirst (first entry0)) in
      let l := snd (from_chars tokenLast (last entry0)) in
      inr (mkEntry f l)
  | None =>
  match regex_match s bothOpenRange with
  | Some _ => inr (mkEntry 1 pageCount)
  | None => inl InvalidRange
  end end end end end.

(** The three checks on the bounds and the shift to indices from 0. *)
Definition validate (pageCount : Z) (entry : PageRangeEntry)
    : result PageRangeEntry :=
  if (first entry >? pageCount) || (last entry >? pageCount)
  then inl OutOfRange
  else if last entry <? first entry then inl InvalidOrder
  else if first entry =? 0 then inl InvalidPageNumber
  else inr (mkEntry (wrap (first entry - 1)) (wrap (last entry - 1))).

(** One pass of the loop body. *)
Definition parse_token (entry0 : PageRangeEntry) (pageCount : Z)
    (s : cstring) : result PageRangeEntry :=
  match recognise entry0 pageCount s with
  | inl e => inl e
  | inr entry => validate pageCount entry
  end.

(** The loop over the tokens: the first exception ends it, and the
    entries collected so far are lost with it. *)
Fixpoint parse_loop (entry0 : PageRangeEntry) (pageCount : Z)
    (toks : list cstring) (entries : list PageRangeEntry)
    : result (list PageRangeEntry) :=
  match toks with
  | [] => inr entries
  | t :: rest =>
      match parse_token entry0 pageCount t with
      | inl e => inl e
      | inr entry => parse_loop entry0 pageCount rest (entries ++ [entry])
      end
  end.

Definition parse (entry0 : PageRangeEntry) (s : cstring) (pageCount : Z)
    : result (list PageRangeEntry) :=
  if pageCount =? 0 then inl InvalidConfiguration
  else parse_loop entry0 pageCount (tokens s) [].

End PageRange.

Import PageRange.

(** ** The five cases, read in one pass

    A scanner for the same five cases, written as one pass over the token
    with a tagged union for its result; [recognise] is compared with it
    below. *)

Inductive shape : Type :=
| SinglePage (n : cstring)      (* n *)
| RightOpen (n : cstring)       (* n- *)
| LeftOpen (m : cstring)        (* -m *)
| Closed (n m : cstring)        (* n-m *)
| BothOpen.                     (* - *)

Definition classify (s : cstring) : option shape :=
  let s1 := drop_while isspace s in
  let n := take_while isdigit s1 in
  match drop_while isspace (drop_while isdigit s1) with
  | [] => match n with [] => None | _ :: _ => Some (SinglePage n) end
  | a :: s4 =>
      if Ascii.eqb a "-" then
        let s5 := drop_while isspace s4 in
        let m := take_while isdigit s5 in
        match drop_while isspace (drop_while isdigit s5) with
        | [] =>
            Some match n, m with
                 | [], [] => BothOpen
                 | [], _ :: _ => LeftOpen m
                 | _ :: _, [] => RightOpen n
                 | _ :: _, _ :: _ => Closed n m
                 end
        | _ :: _ => None
        end
      else None
  end.

(** The bounds, counted from 1, that each case gives. *)
Definition raw_entry (entry0 : PageRangeEntry) (pageCount : Z) (sh : shape)
    : PageRangeEntry :=
  match sh with
  | SinglePage n =>
      let f := snd (from_chars n (first entry0)) in mkEntry f f
  | RightOpen n => mkEntry (snd (from_chars n (first entry0))) pageCount
  | LeftOpen m => mkEntry 1 (snd (from_chars m (last entry0)))
  | Closed n m =>
      mkEntry (snd (from_chars n (first entry0)))
              (snd (from_chars m (last entry0)))
  | BothOpen => mkEntry 1 pageCount
  end.

(** Whitespace, possibly none. *)
Definition blank (w : cstring) : Prop := forallb isspace w = true.

(** One decimal digit or more. *)
Definition numeral (d : cstring) : Prop :=
  d <> [] /\ forallb isdigit d = true.

(** The five cases as the grammar gives them: the token is, from its first
    character to its last, of one of these forms. *)
Inductive has_shape : cstring -> shape -> Prop :=
| hs_single w1 n w2 :
    blank w1 -> numeral n -> blank w2 ->
    has_shape (w1 ++ n ++ w2) (SinglePage n)
| hs_right_open w1 n w2 w3 :
    blank w1 -> numeral n -> blank w2 -> blank w3 ->
    has_shape (w1 ++ n ++ w2 ++ "-"%char :: w3) (RightOpen n)
| hs_left_open w1 w2 m w3 :
    blank w1 -> blank w2 -> numeral m -> blank w3 ->
    has_shape (w1 ++ "-"%char :: w2 ++ m ++ w3) (LeftOpen m)
| hs_closed w1 n w2 w3 m w4 :
    blank w1 -> numeral n -> blank w2 -> blank w3 -> numeral m -> blank w4 ->
    has_shape (w1 ++ n ++ w2 ++ "-"%char :: w3 ++ m ++ w4) (Closed n m)
| hs_both_open w1 w2 :
    blank w1 -> blank w2 ->
    has_shape (w1 ++ "-"%char :: w2) BothOpen.

(** Both fields of an entry are values of [size_t]. *)
Definition entry_ok (e : PageRangeEntry) : Prop :=
  in_size_t (first e) /\ in_size_t (last e).

(** An entry of the result: indices from 0, in order, below [pageCount]. *)
Definition in_bounds (pageCount : Z) (e : PageRangeEntry) : Prop :=
  0 <= first e /\ first e <= last e /\ last e < pageCount.

(** A token the loop body gets through. *)
Definition accepted (entry0 : PageRangeEntry) (pageCount : Z) (t : cstring)
    : Prop :=
  exists e, parse_token entry0 pageCount t = inr e.

(** A continuation that fails on every input starting with a character
    of [p]. *)
Definition rejects (p : ascii -> bool) (k : continuation) : Prop :=
  forall a t c, p a = true -> k (a :: t) c = None.

(** A character that can stand in an input [parse] accepts. *)
Definition allowed_char (a : ascii) : bool :=
  isdigit a || isspace a || Ascii.eqb a "-" || is_separator a.

(** Two characters that are the same, or both separators. *)
Definition same_separation (a b : ascii) : Prop :=
  a = b \/ (is_separator a = true /\ is_separator b = true).

(** The five expressions, in the order the loop body tries them. *)
Definition cases : list regex :=
  [singlePage; rightOpenRange; leftOpenRange; pageRange; bothOpenRange].

(** Zeros only, possibly none. *)
Definition zeros (z : cstring) : Prop :=
  forallb (fun a => Ascii.eqb a "0") z = true.

(** The entries of two results, one after the other. *)
Definition append_results (r1 r2 : result (list PageRangeEntry))
    : result (list PageRangeEntry) :=
  match r1 with
  | inl e => inl e
  | inr es1 =>
      match r2 with
      | inl e => inl e
      | inr es2 => inr (es1 ++ es2)
      end
  end.

(** A default-constructed entry whose members are value-initialised. *)
Definition zero_entry : PageRangeEntry := mkEntry 0 0.

(** ** [DocumentView] (src/core/view/DocumentView.cpp)

    The view draws a page through classes of the program and of the
    graphics toolkit that it only calls: each such call is recorded, in
    order, with what it was given.  A [double] is a binary64 float.  A
    pointer that may be null is an [option], and going through a null one
    has no result. *)

(** What the view takes from the rest of the program: the types it hands
    on and the three questions it asks of them. *)
Class Toolkit : Type := {
  cairo_t : Type;
  PageType : Type;
  isPdfPage : PageType -> bool;
  isImagePage : PageType -> bool;
  BackgroundImage : Type;
  Color : Type;
  Layer : Type;
  isVisible : Layer -> bool
}.

Module DocumentView.

(** [double] *)
Definition double : Set := PrimFloat.float.

(** The value [-1] that marks "no area set". *)
Definition minus_one : double := PrimFloat.opp PrimFloat.one.

(** [v == -1] *)
Definition is_minus_one (v : double) : bool := PrimFloat.eqb v minus_one.

(** What the view reads of a page. *)
Record XojPage `{Toolkit} : Type := mkPage {
  getWidth : double;
  getHeight : double;
  getBackgroundType : PageType;
  getBackgroundImage : BackgroundImage;
  getBackgroundColor : Color;
  isLayerVisible : Z -> bool;
  getLayers : list Layer
}.
Arguments mkPage {_} _ _ _ _ _ _ _.

(** [xoj::util::Rectangle<double>] *)
Record Rectangle : Type := mkRectangle {
  rect_x : double;
  rect_y : double;
  rect_width : double;
  rect_height : double
}.

Inductive ColorTreatment : Type := NORMAL_COLOR.

(** [xoj::view::Context]; the two treatments are casts of a [bool]. *)
Record Context `{Toolkit} : Type := mkContext {
  context_cr : option cairo_t;
  nonAudioTreatment : bool;
  editionTreatment : bool;
  colorTreatment : ColorTreatment
}.
Arguments mkContext {_} _ _ _ _.

(** The calls that draw. *)
Inductive draw_call `{Toolkit} : Type :=
| ImageBackgroundView_draw
    (image : BackgroundImage) (w h : double) (target : option cairo_t)
| BackgroundView_draw
    (w h : double) (color : Color) (pt : PageType) (target : option cairo_t)
| TransparentCheckerboardBackgroundView_draw
    (w h : double) (target : option cairo_t)
| LayerView_draw (layer : Layer) (context : Context)
| LayerView_draw_area (layer : Layer) (context : Context) (area : Rectangle).
Arguments ImageBackgroundView_draw {_} _ _ _ _.
Arguments BackgroundView_draw {_} _ _ _ _ _.
Arguments TransparentCheckerboardBackgroundView_draw {_} _ _ _.
Arguments LayerView_draw {_} _ _.
Arguments LayerView_draw_area {_} _ _ _.

(** The members of the view. *)
Record DocumentView `{Toolkit} : Type := mkView {
  markAudioStroke : bool;
  lX : double;
  lY : double;
  lWidth : double;
  lHeight : double;
  cr : option cairo_t;
  page : option XojPage;
  width : double;
  height : double;
  dontRenderEditingStroke : bool
}.
Arguments mkView {_} _ _ _ _ _ _ _ _ _ _.

Definition setMarkAudioStroke `{Toolkit} (this : DocumentView)
    (markAudioStroke' : bool) : DocumentView :=
  mkView markAudioStroke' (lX this) (lY this) (lWidth this) (lHeight this)
         (cr this) (page this) (width this) (height this)
         (dontRenderEditingStroke this).

Definition limitArea `{Toolkit} (this : DocumentView)
    (x y width' height' : double) : DocumentView :=
  mkView (markAudioStroke this) x y width' height'
         (cr this) (page this) (width this) (height this)
         (dontRenderEditingStroke this).

(** The width and height are read through [page]. *)
Definition initDrawing `{Toolkit} (this : DocumentView)
    (page' : option XojPage) (cr' : option cairo_t)
    (dontRenderEditingStroke' : bool) : option DocumentView :=
  match page' with
  | None => None
  | Some p =>
      Some (mkView (markAudioStroke this) (lX this) (lY this) (lWidth this)
                   (lHeight this) cr' page' (getWidth p) (getHeight p)
                   dontRenderEditingStroke')
  end.

(** Without [DEBUG_SHOW_REPAINT_BOUNDS]. *)
Definition finializeDrawing `{Toolkit} (this : DocumentView) : DocumentView :=
  mkView (markAudioStroke this) minus_one minus_one minus_one minus_one
         None None (width this) (height this)
         (dontRenderEditingStroke this).

Definition drawBackground `{Toolkit} (this : DocumentView)
    (hidePdfBackground hideImageBackground hideRulingBackground : bool)
    : option (list draw_call) :=
  match page this with
  | None => None
  | Some p =>
      let pt := getBackgroundType p in
      if isPdfPage pt then Some []
      else if isImagePage pt && negb hideImageBackground then
        Some [ImageBackgroundView_draw (getBackgroundImage p) (getWidth p)
                (getHeight p) (cr this)]
      else if negb hideRulingBackground then
        Some [BackgroundView_draw (getWidth p) (getHeight p)
                (getBackgroundColor p) pt (cr this)]
      else Some []
  end.

(** The loop over the layers of the page. *)
Fixpoint draw_layers `{Toolkit} (this : DocumentView) (context : Context)
    (drawArea : Rectangle) (layers : list Layer) : list draw_call :=
  match layers with
  | [] => []
  | layer :: rest =>
      (if isVisible layer then
         if is_minus_one (lX this) then [LayerView_draw layer context]
         else [LayerView_draw_area layer context drawArea]
       else [])
      ++ draw_layers this context drawArea rest
  end.

(** The view after the call and the calls made, in order. *)
Definition drawPage `{Toolkit} (this : DocumentView)
    (page' : option XojPage) (cr' : option cairo_t)
    (dontRenderEditingStroke' hidePdfBackground hideImageBackground
       hideRulingBackground : bool)
    : option (DocumentView * list draw_call) :=
  match initDrawing this page' cr' dontRenderEditingStroke' with
  | None => None
  | Some this1 =>
  match page' with
  | None => None
  | Some p =>
      let backgroundVisible := isLayerVisible p 0 in
      match (if backgroundVisible then
               drawBackground this1 hidePdfBackground hideImageBackground
                 hideRulingBackground
             else Some []) with
      | None => None
      | Some background =>
          let checkerboard :=
            if negb backgroundVisible then
              [TransparentCheckerboardBackgroundView_draw (getWidth p)
                 (getHeight p) cr']
            else [] in
          let context :=
            mkContext cr' (markAudioStroke this1)
                      (negb (dontRenderEditingStroke this1)) NORMAL_COLOR in
          let drawArea :=
            mkRectangle (lX this1) (lY this1) (lWidth this1)
                        (lHeight this1) in
          Some (finializeDrawing this1,
                background ++ checkerboard ++
                draw_layers this1 context drawArea (getLayers p))
      end
  end end.

(** A call that draws a layer. *)
Definition is_layer_call `{Toolkit} (c : draw_call) : bool :=
  match c with
  | LayerView_draw _ _ | LayerView_draw_area _ _ _ => true
  | _ => false
  end.

(** The call that draws one layer, whole or within the area. *)
Definition layer_call `{Toolkit} (whole : bool) (context : Context)
    (area : Rectangle) (layer : Layer) : draw_call :=
  if whole then LayerView_draw layer context
  else LayerView_draw_area layer context area.

End DocumentView.

(** A toolkit to try the view on: handles are numbers, a page type is
    the pair of answers it gives, a layer a handle and its visibility. *)
Definition demo_toolkit : Toolkit :=
  {| cairo_t := Z;
     PageType := bool * bool;
     isPdfPage := fst;
     isImagePage := snd;
     BackgroundImage := Z;
     Color := Z;
     Layer := Z * bool;
     isVisible := snd |}.

(** An image page of three layers, the second of them hidden. *)
Definition demo_page : @DocumentView.XojPage demo_toolkit :=
  @DocumentView.mkPage demo_toolkit PrimFloat.two PrimFloat.one
    (false, true) 7 3 (fun _ => true) [(1, true); (2, false); (3, true)].

(** A view with nothing set. *)
Definition demo_view : @DocumentView.DocumentView demo_toolkit :=
  @DocumentView.mkView demo_toolkit false
    DocumentView.minus_one DocumentView.minus_one DocumentView.minus_one
    DocumentView.minus_one None None PrimFloat.zero PrimFloat.zero false.

(** ** Character classes *)

Lemma space_not_digit a : isspace a = true -> isdigit a = false.
Proof.
  destruct a as [[] [] [] [] [] [] [] []]; vm_compute; congruence.
Qed.

Lemma digit_not_space a : isdigit a = true -> isspace a = false.
Proof.
  destruct a as [[] [] [] [] [] [] [] []]; vm_compute; congruence.
Qed.

Lemma space_not_dash a : isspace a = true -> Ascii.eqb a "-" = false.
Proof.
  destruct a as [[] [] [] [] [] [] [] []]; vm_compute; congruence.
Qed.

Lemma digit_not_dash a : isdigit a = true -> Ascii.eqb a "-" = false.
Proof.
  destruct a as [[] [] [] [] [] [] [] []]; vm_compute; congruence.
Qed.

Lemma digit_value_range a : isdigit a = true -> 0 <= digit_value a <= 9.
Proof.
  unfold isdigit, digit_value. lia.
Qed.

(** ** Prefixes of one class *)

Lemma take_drop_while p s : take_while p s ++ drop_while p s = s.
Proof.
  induction s as [|a t IH]; simpl; [reflexivity|].
  destruct (p a); simpl; [now rewrite IH | reflexivity].
Qed.

Lemma take_while_all p s : forallb p (take_while p s) = true.
Proof.
  induction s as [|a t IH]; simpl; [reflexivity|].
  destruct (p a) eqn:E; simpl; [now rewrite E | reflexivity].
Qed.

Lemma drop_while_head p s a t : drop_while p s = a :: t -> p a = false.
Proof.
  induction s as [|b u IH]; simpl; [discriminate|].
  destruct (p b) eqn:E; [exact IH|]. intros H; injection H as -> _. exact E.
Qed.

Lemma drop_while_app p w r :
  forallb p w = true -> drop_while p (w ++ r) = drop_while p r.
Proof.
  induction w as [|a t IH]; simpl; [reflexivity|].
  intros H. apply andb_prop in H as [-> H]. auto.
Qed.

Lemma take_while_app p w r :
  forallb p w = true -> take_while p (w ++ r) = w ++ take_while p r.
Proof.
  induction w as [|a t IH]; simpl; [reflexivity|].
  intros H. apply andb_prop in H as [-> H]. now rewrite IH.
Qed.

Lemma firstn_drop_while p s :
  firstn (List.length s - List.length (drop_while p s)) s = take_while p s.
Proof.
  pose proof (take_drop_while p s) as E.
  remember (take_while p s) as tw eqn:Htw.
  remember (drop_while p s) as dw eqn:Hdw.
  clear Htw Hdw. subst s.
  rewrite length_app.
  replace (List.length tw + List.length dw - List.length dw)%nat
    with (List.length tw) by lia.
  rewrite firstn_app, firstn_all, Nat.sub_diag. simpl. apply app_nil_r.
Qed.

(** ** The matcher on the expressions of the parser *)

Lemma star_loop_class p k fuel s c :
  rejects p k -> (List.length s <= fuel)%nat ->
  star_loop (rmatch (Class p)) k fuel s c = k (drop_while p s) c.
Proof.
  intros Hk. revert s c. induction fuel as [|f IH]; intros s c Hlen.
  - destruct s; simpl in *; [reflexivity | lia].
  - destruct s as [|a t]; [reflexivity|].
    cbn [star_loop rmatch drop_while]. destruct (p a) eqn:E; [|reflexivity].
    assert (L : (List.length t <? List.length (a :: t))%nat = true)
      by (apply Nat.ltb_lt; simpl; lia).
    rewrite L, IH by (simpl in Hlen; lia).
    rewrite (Hk a t c E). now destruct (k (drop_while p t) c).
Qed.

Lemma rmatch_seq r1 r2 s c k :
  rmatch (Seq r1 r2) s c k = rmatch r1 s c (fun s' c' => rmatch r2 s' c' k).
Proof. reflexivity. Qed.

Lemma rmatch_ws s c k :
  rejects isspace k -> rmatch ws s c k = k (drop_while isspace s) c.
Proof.
  intros Hk. unfold ws. cbn [rmatch]. now apply star_loop_class.
Qed.

Lemma rmatch_number i s c k :
  rejects isdigit k ->
  rmatch (number i) s c k =
  match take_while isdigit s with
  | [] => None
  | _ :: _ => k (drop_while isdigit s) ((i, take_while isdigit s) :: c)
  end.
Proof.
  intros Hk. unfold number. cbn [rmatch].
  destruct s as [|a t]; [reflexivity|].
  pose proof (firstn_drop_while isdigit (a :: t)) as F.
  cbn [take_while drop_while] in *. destruct (isdigit a) eqn:E; [|reflexivity].
  change (fun (s : cstring) (c0 : captures) (k0 : continuation) =>
            match s with
            | [] => None
            | a0 :: t0 => if isdigit a0 then k0 t0 c0 else None
            end) with (rmatch (Class isdigit)).
  rewrite star_loop_class; [now rewrite F | | lia].
  intros b u c' Hb. now apply Hk.
Qed.

Lemma rmatch_dash s c k :
  rmatch dash s c k =
  match s with
  | a :: t => if Ascii.eqb a "-" then k t c else None
  | [] => None
  end.
Proof. reflexivity. Qed.

Lemma rejects_at_end p : rejects p at_end.
Proof. intros a t c _. reflexivity. Qed.

Lemma rejects_seq p r1 r2 k :
  rejects p (fun s c => rmatch r1 s c (fun s' c' => rmatch r2 s' c' k)) ->
  rejects p (fun s c => rmatch (Seq r1 r2) s c k).
Proof. intros H. exact H. Qed.

Lemma rejects_ws p k :
  (forall a, p a = true -> isspace a = false) -> rejects p k ->
  rejects p (fun s c => rmatch ws s c k).
Proof.
  intros Hp Hk a t c Ha. unfold ws. cbn [rmatch List.length star_loop].
  rewrite (Hp a Ha). now apply Hk.
Qed.

Lemma rejects_number p i k :
  (forall a, p a = true -> isdigit a = false) ->
  rejects p (fun s c => rmatch (number i) s c k).
Proof.
  intros Hp a t c Ha. unfold number. cbn [rmatch]. now rewrite (Hp a Ha).
Qed.

Lemma rejects_dash p k :
  (forall a, p a = true -> Ascii.eqb a "-" = false) ->
  rejects p (fun s c => rmatch dash s c k).
Proof.
  intros Hp a t c Ha. unfold dash. cbn [rmatch]. now rewrite (Hp a Ha).
Qed.

Ltac rejects_tac :=
  repeat first
    [ apply rejects_at_end
    | match goal with
      | |- rejects _ (fun s c => rmatch (Seq _ _) s c _) => apply rejects_seq
      | |- rejects _ (fun s c => rmatch ws s c _) => apply rejects_ws
      | |- rejects _ (fun s c => rmatch (number _) s c _) =>
          apply rejects_number
      | |- rejects _ (fun s c => rmatch dash s c _) => apply rejects_dash
      end
    | exact space_not_digit
    | exact digit_not_space
    | exact space_not_dash
    | exact digit_not_dash ].

Ltac match_step :=
  first
    [ rewrite rmatch_seq
    | rewrite rmatch_ws by rejects_tac
    | rewrite rmatch_number by rejects_tac
    | rewrite rmatch_dash ];
  cbv beta.

(** ** [recognise] and the one-pass scanner *)

Lemma drop_while_idem p s : drop_while p (drop_while p s) = drop_while p s.
Proof.
  destruct (drop_while p s) as [|a t] eqn:E; [reflexivity|].
  apply drop_while_head in E. simpl. now rewrite E.
Qed.

Lemma take_while_nil_drop p s : take_while p s = [] -> drop_while p s = s.
Proof.
  destruct s as [|a t]; simpl; [reflexivity|]. now destruct (p a).
Qed.

(** After a dash, nothing but whitespace follows exactly when the scanner
    finds no second number and nothing after it. *)
Lemma scan_tail_empty s4 :
  let s5 := drop_while isspace s4 in
  match s5 with
  | [] =>
      take_while isdigit s5 = [] /\
      drop_while isspace (drop_while isdigit s5) = []
  | _ :: _ =>
      take_while isdigit s5 <> [] \/
      drop_while isspace (drop_while isdigit s5) <> []
  end.
Proof.
  cbv zeta. destruct (drop_while isspace s4) as [|b u] eqn:E; [now split|].
  apply drop_while_head in E. cbn [take_while drop_while].
  destruct (isdigit b); [left; discriminate|].
  right. cbn [drop_while]. rewrite E. discriminate.
Qed.

(** A token that starts, after its whitespace, with a dash has no first
    number, and the scanner stands at the dash. *)
Lemma scan_head_dash s1 a t :
  s1 = a :: t -> Ascii.eqb a "-" = true ->
  take_while isdigit s1 = [] /\
  drop_while isspace (drop_while isdigit s1) = s1.
Proof.
  intros -> H. apply Ascii.eqb_eq in H. subst a. now split.
Qed.

(** Without a first number the scanner stands where the whitespace
    ended. *)
Lemma scan_no_number s :
  let s1 := drop_while isspace s in
  take_while isdigit s1 = [] ->
  drop_while isspace (drop_while isdigit s1) = s1.
Proof.
  cbv zeta. intros H. rewrite (take_while_nil_drop _ _ H).
  apply drop_while_idem.
Qed.

Ltac scan_one :=
  match goal with
  | |- context [match ?x with _ => _ end] =>
      lazymatch x with
      | context [match _ with _ => _ end] => fail
      | _ => destruct x eqn:?
      end
  end.

Ltac scan_cases :=
  repeat first [match_step | scan_one];
  try reflexivity; try discriminate; try congruence.

Lemma match_singlePage s :
  regex_match s singlePage =
  match classify s with
  | Some (SinglePage n) => Some [(1%nat, n)]
  | _ => None
  end.
Proof.
  unfold regex_match, singlePage. repeat match_step. unfold classify, at_end.
  scan_cases.
Qed.

Lemma match_pageRange s :
  regex_match s pageRange =
  match classify s with
  | Some (Closed n m) => Some [(2%nat, m); (1%nat, n)]
  | _ => None
  end.
Proof.
  unfold regex_match, pageRange. repeat match_step. unfold classify, at_end.
  scan_cases.
Qed.

Lemma match_rightOpenRange s :
  regex_match s rightOpenRange =
  match classify s with
  | Some (RightOpen n) => Some [(1%nat, n)]
  | _ => None
  end.
Proof.
  unfold regex_match, rightOpenRange. repeat match_step.
  unfold classify, at_end.
  destruct (take_while isdigit (drop_while isspace s)) as [|d n'] eqn:En.
  - scan_cases.
  - destruct (drop_while isspace (drop_while isdigit (drop_while isspace s)))
      as [|a s4]; [reflexivity|].
    destruct (Ascii.eqb a "-"); [|reflexivity].
    match_step.
    pose proof (scan_tail_empty s4) as T. cbv zeta in T.
    destruct (drop_while isspace s4) as [|b u].
    + destruct T as [-> ->]. reflexivity.
    + destruct T as [T|T]; scan_cases.
Qed.

Lemma match_leftOpenRange s :
  regex_match s leftOpenRange =
  match classify s with
  | Some (LeftOpen m) => Some [(1%nat, m)]
  | _ => None
  end.
Proof.
  unfold regex_match, leftOpenRange. repeat match_step.
  unfold classify, at_end.
  destruct (drop_while isspace s) as [|a t] eqn:E1.
  - reflexivity.
  - destruct (Ascii.eqb a "-") eqn:Ea.
    + destruct (scan_head_dash (a :: t) a t eq_refl Ea) as [-> ->].
      rewrite Ea. scan_cases.
    + pose proof (scan_no_number s) as N. cbv zeta in N. rewrite E1 in N.
      destruct (take_while isdigit (a :: t)) as [|d n'] eqn:En.
      * rewrite (N eq_refl), Ea. reflexivity.
      * scan_cases.
Qed.

Lemma match_bothOpenRange s :
  regex_match s bothOpenRange =
  match classify s with
  | Some BothOpen => Some []
  | _ => None
  end.
Proof.
  unfold regex_match, bothOpenRange. repeat match_step.
  unfold classify, at_end.
  destruct (drop_while isspace s) as [|a t] eqn:E1.
  - reflexivity.
  - destruct (Ascii.eqb a "-") eqn:Ea.
    + destruct (scan_head_dash (a :: t) a t eq_refl Ea) as [-> ->].
      rewrite Ea. match_step.
      pose proof (scan_tail_empty t) as T. cbv zeta in T.
      destruct (drop_while isspace t) as [|b u].
      * destruct T as [-> ->]. reflexivity.
      * destruct T as [T|T]; scan_cases.
    + pose proof (scan_no_number s) as N. cbv zeta in N. rewrite E1 in N.
      destruct (take_while isdigit (a :: t)) as [|d n'] eqn:En.
      * rewrite (N eq_refl), Ea. reflexivity.
      * scan_cases.
Qed.

(** [recognise], with its five expressions tried in turn, finds the case
    the scanner finds and gives the bounds of that case. *)
Lemma recognise_classify entry0 pageCount s :
  recognise entry0 pageCount s =
  match classify s with
  | Some sh => inr (raw_entry entry0 pageCount sh)
  | None => inl InvalidRange
  end.
Proof.
  unfold recognise.
  rewrite match_singlePage, match_rightOpenRange, match_leftOpenRange,
    match_pageRange, match_bothOpenRange.
  destruct (classify s) as [[n|n|m|n m|]|]; reflexivity.
Qed.

(** ** The scanner and the grammar *)

Lemma blank_app w1 w2 : blank w1 -> blank w2 -> blank (w1 ++ w2).
Proof.
  unfold blank. intros H1 H2. now rewrite forallb_app, H1, H2.
Qed.

Lemma blank_no_digit w r :
  blank w -> take_while isdigit r = [] ->
  take_while isdigit (w ++ r) = [] /\ drop_while isdigit (w ++ r) = w ++ r.
Proof.
  intros Hw Hr. destruct w as [|a t].
  - split; [exact Hr | now apply take_while_nil_drop].
  - apply andb_prop in Hw as [Ha _]. simpl.
    now rewrite (space_not_digit a Ha).
Qed.

Lemma blank_drop w : blank w -> drop_while isspace w = [].
Proof.
  intros Hw. rewrite <- (app_nil_r w). now rewrite drop_while_app.
Qed.

Lemma numeral_no_space n r :
  numeral n -> drop_while isspace (n ++ r) = n ++ r.
Proof.
  intros [Hn Hd]. destruct n as [|a t]; [congruence|].
  apply andb_prop in Hd as [Ha _]. simpl.
  now rewrite (digit_not_space a Ha).
Qed.

(** What the scanner reads from a piece of the form: whitespace, a number,
    whitespace, and the rest [r], which starts with neither. *)
Lemma scan_piece w1 n w2 r :
  blank w1 -> numeral n -> blank w2 ->
  take_while isdigit r = [] -> drop_while isspace r = r ->
  let s1 := drop_while isspace (w1 ++ n ++ w2 ++ r) in
  take_while isdigit s1 = n /\
  drop_while isspace (drop_while isdigit s1) = r.
Proof.
  intros H1 Hn H2 Hd Hs. cbv zeta.
  rewrite (drop_while_app _ w1) by exact H1.
  rewrite numeral_no_space by exact Hn.
  destruct (blank_no_digit w2 r H2 Hd) as [T D].
  rewrite (take_while_app _ n), (drop_while_app _ n) by apply Hn.
  rewrite T, D, app_nil_r. split; [reflexivity|].
  now rewrite (drop_while_app _ w2).
Qed.

(** The same when there is no number: whitespace and the rest. *)
Lemma scan_piece_empty w r :
  blank w -> take_while isdigit r = [] -> drop_while isspace r = r ->
  let s1 := drop_while isspace (w ++ r) in
  take_while isdigit s1 = [] /\
  drop_while isspace (drop_while isdigit s1) = r.
Proof.
  intros Hw Hd Hs. cbv zeta. rewrite (drop_while_app _ w), Hs by exact Hw.
  split; [exact Hd|]. now rewrite (take_while_nil_drop _ _ Hd).
Qed.

Lemma numeral_cons n : numeral n -> exists a t, n = a :: t.
Proof.
  intros [Hn _]. destruct n as [|a t]; [congruence|]. now exists a, t.
Qed.

Lemma classify_complete s sh : has_shape s sh -> classify s = Some sh.
Proof.
  intros H. destruct H as
    [w1 n w2 H1 Hn H2 | w1 n w2 w3 H1 Hn H2 H3 | w1 w2 m w3 H1 H2 Hm H3
    | w1 n w2 w3 m w4 H1 Hn H2 H3 Hm H4 | w1 w2 H1 H2 ].
  - rewrite <- (app_nil_r w2). unfold classify. cbv zeta.
    destruct (scan_piece w1 n w2 [] H1 Hn H2 eq_refl eq_refl) as [-> ->].
    destruct (numeral_cons n Hn) as (a & t & ->). reflexivity.
  - rewrite <- (app_nil_r w3). unfold classify. cbv zeta.
    destruct (scan_piece w1 n w2 ("-"%char :: w3 ++ []) H1 Hn H2 eq_refl
                eq_refl) as [-> ->].
    destruct (scan_piece_empty w3 [] H3 eq_refl eq_refl) as [-> ->].
    destruct (numeral_cons n Hn) as (a & t & ->). reflexivity.
  - rewrite <- (app_nil_r w3). unfold classify. cbv zeta.
    destruct (scan_piece_empty w1 ("-"%char :: w2 ++ m ++ w3 ++ []) H1
                eq_refl eq_refl) as [-> ->].
    destruct (scan_piece w2 m w3 [] H2 Hm H3 eq_refl eq_refl) as [-> ->].
    destruct (numeral_cons m Hm) as (a & t & ->). reflexivity.
  - rewrite <- (app_nil_r w4). unfold classify. cbv zeta.
    destruct (scan_piece w1 n w2 ("-"%char :: w3 ++ m ++ w4 ++ []) H1 Hn H2
                eq_refl eq_refl) as [-> ->].
    destruct (scan_piece w3 m w4 [] H3 Hm H4 eq_refl eq_refl) as [-> ->].
    destruct (numeral_cons n Hn) as (a & t & ->).
    destruct (numeral_cons m Hm) as (b & u & ->). reflexivity.
  - rewrite <- (app_nil_r w2). unfold classify. cbv zeta.
    destruct (scan_piece_empty w1 ("-"%char :: w2 ++ []) H1 eq_refl eq_refl)
      as [-> ->].
    destruct (scan_piece_empty w2 [] H2 eq_refl eq_refl) as [-> ->].
    reflexivity.
Qed.

(** Any string splits into the whitespace, the digits and the whitespace
    the scanner passes over, and what it then stands at. *)
Lemma scan_decompose s :
  exists w1 n w2 s3,
    s = w1 ++ n ++ w2 ++ s3 /\ blank w1 /\ forallb isdigit n = true /\
    blank w2 /\ take_while isdigit (drop_while isspace s) = n /\
    drop_while isspace (drop_while isdigit (drop_while isspace s)) = s3.
Proof.
  exists (take_while isspace s),
    (take_while isdigit (drop_while isspace s)),
    (take_while isspace (drop_while isdigit (drop_while isspace s))),
    (drop_while isspace (drop_while isdigit (drop_while isspace s))).
  repeat split; try apply take_while_all.
  now rewrite !take_drop_while.
Qed.

Lemma classify_sound s sh : classify s = Some sh -> has_shape s sh.
Proof.
  unfold classify. cbv zeta.
  destruct (scan_decompose s) as (w1 & n & w2 & s3 & Es & H1 & Hn & H2 & -> & ->).
  destruct s3 as [|a s4].
  - destruct n as [|d n'] eqn:En; [discriminate|]. intros [= <-].
    rewrite Es, app_nil_r. constructor; try assumption.
    split; [discriminate | assumption].
  - destruct (Ascii.eqb a "-") eqn:Ea; [|discriminate].
    apply Ascii.eqb_eq in Ea. subst a.
    destruct (scan_decompose s4)
      as (w3 & m & w4 & s7 & Es4 & H3 & Hm & H4 & -> & ->).
    destruct s7 as [|b s8]; [|discriminate].
    rewrite app_nil_r in Es4. subst s4.
    destruct n as [|d n'] eqn:En; destruct m as [|e m'] eqn:Em;
      intros [= <-]; subst s.
    + change (has_shape (w1 ++ w2 ++ "-"%char :: w3 ++ w4) BothOpen).
      rewrite app_assoc.
      constructor; now apply blank_app.
    + change (has_shape (w1 ++ w2 ++ "-"%char :: w3 ++ (e :: m') ++ w4)
                (LeftOpen (e :: m'))).
      rewrite app_assoc.
      constructor; try assumption; [now apply blank_app|].
      split; [discriminate | assumption].
    + change (has_shape (w1 ++ (d :: n') ++ w2 ++ "-"%char :: w3 ++ w4)
                (RightOpen (d :: n'))).
      constructor; try assumption; [|now apply blank_app].
      split; [discriminate | assumption].
    + constructor; try assumption; split; try discriminate; assumption.
Qed.

(** The scanner accepts exactly the tokens of the five forms. *)
Lemma classify_spec s sh : classify s = Some sh <-> has_shape s sh.
Proof.
  split; [apply classify_sound | apply classify_complete].
Qed.

(** ** [from_chars] on the text of a group *)

Lemma take_while_id p s : forallb p s = true -> take_while p s = s.
Proof.
  intros H. rewrite <- (app_nil_r s) at 1.
  rewrite take_while_app by exact H. apply app_nil_r.
Qed.

Lemma fold_decimal_nonneg ds acc :
  forallb isdigit ds = true -> 0 <= acc ->
  0 <= fold_left (fun acc a => 10 * acc + digit_value a) ds acc.
Proof.
  revert acc. induction ds as [|a t IH]; intros acc H Hacc;
    cbn [fold_left].
  - exact Hacc.
  - cbn [forallb] in H. apply andb_prop in H as [Ha Ht].
    apply IH; [exact Ht|]. pose proof (digit_value_range a Ha). lia.
Qed.

Lemma decimal_nonneg ds : forallb isdigit ds = true -> 0 <= decimal ds.
Proof.
  intros H. unfold decimal. apply fold_decimal_nonneg; [exact H | lia].
Qed.

Lemma from_chars_range tok v :
  in_size_t v -> in_size_t (snd (from_chars tok v)).
Proof.
  intros Hv. unfold from_chars.
  pose proof (take_while_all isdigit tok) as Hd.
  destruct (take_while isdigit tok) as [|a t]; [exact Hv|].
  destruct (decimal (a :: t) <=? SIZE_MAX) eqn:E; [|exact Hv].
  simpl. split; [now apply decimal_nonneg | now apply Z.leb_le].
Qed.

(** A number that fits is read exactly. *)
Lemma from_chars_numeral n v :
  numeral n -> decimal n <= SIZE_MAX ->
  from_chars n v = (errc_ok, decimal n).
Proof.
  intros [Hn Hd] Hle. unfold from_chars. rewrite (take_while_id _ _ Hd).
  destruct n as [|a t]; [congruence|].
  apply Z.leb_le in Hle. now rewrite Hle.
Qed.

(** A number that does not fit leaves the value as it was. *)
Lemma from_chars_overflow n v :
  numeral n -> SIZE_MAX < decimal n ->
  from_chars n v = (errc_result_out_of_range, v).
Proof.
  intros [Hn Hd] Hlt. unfold from_chars. rewrite (take_while_id _ _ Hd).
  destruct n as [|a t]; [congruence|].
  apply Z.leb_gt in Hlt. now rewrite Hlt.
Qed.

Lemma raw_entry_ok entry0 pageCount sh :
  entry_ok entry0 -> 1 <= pageCount <= SIZE_MAX ->
  entry_ok (raw_entry entry0 pageCount sh).
Proof.
  intros [Hf Hl] Hpc.
  assert (in_size_t 1) by (unfold in_size_t, SIZE_MAX; lia).
  assert (in_size_t pageCount) by (unfold in_size_t; lia).
  destruct sh; simpl; split; simpl; auto using from_chars_range.
Qed.

Lemma recognise_ok entry0 pageCount s e :
  entry_ok entry0 -> 1 <= pageCount <= SIZE_MAX ->
  recognise entry0 pageCount s = inr e -> entry_ok e.
Proof.
  intros H0 Hpc. rewrite recognise_classify.
  destruct (classify s) as [sh|]; [|discriminate].
  intros [= <-]. now apply raw_entry_ok.
Qed.

(** ** The checks *)

Lemma wrap_pred x : 1 <= x <= SIZE_MAX -> wrap (x - 1) = x - 1.
Proof.
  unfold wrap, SIZE_MAX. intros H. apply Z.mod_small. lia.
Qed.

Lemma validate_inr pageCount e e' :
  validate pageCount e = inr e' ->
  first e <= pageCount /\ last e <= pageCount /\ first e <= last e /\
  first e <> 0 /\ e' = mkEntry (wrap (first e - 1)) (wrap (last e - 1)).
Proof.
  unfold validate.
  destruct (first e >? pageCount) eqn:E1; [discriminate|].
  destruct (last e >? pageCount) eqn:E2; [discriminate|]. simpl.
  destruct (last e <? first e) eqn:E3; [discriminate|].
  destruct (first e =? 0) eqn:E4; [discriminate|].
  intros [= <-]. repeat split; lia.
Qed.

Lemma validate_in_bounds pageCount e e' :
  entry_ok e -> pageCount <= SIZE_MAX ->
  validate pageCount e = inr e' -> in_bounds pageCount e'.
Proof.
  intros [[Hf _] [Hl _]] Hpc H.
  apply validate_inr in H as (H1 & H2 & H3 & H4 & ->).
  unfold in_bounds. simpl. rewrite !wrap_pred by lia. lia.
Qed.

Lemma validate_pass pageCount e :
  1 <= first e -> first e <= last e -> last e <= pageCount ->
  pageCount <= SIZE_MAX ->
  validate pageCount e = inr (mkEntry (first e - 1) (last e - 1)).
Proof.
  intros H1 H2 H3 H4. unfold validate.
  replace (first e >? pageCount) with false by lia.
  replace (last e >? pageCount) with false by lia.
  replace (last e <? first e) with false by lia.
  replace (first e =? 0) with false by lia.
  simpl. now rewrite !wrap_pred by lia.
Qed.

Lemma validate_out_of_range pageCount e :
  first e > pageCount \/ last e > pageCount ->
  validate pageCount e = inl OutOfRange.
Proof.
  intros H. unfold validate.
  replace ((first e >? pageCount) || (last e >? pageCount)) with true;
    [reflexivity|].
  symmetry. apply orb_true_iff. lia.
Qed.

Lemma validate_order pageCount e :
  first e <= pageCount -> last e <= pageCount -> last e < first e ->
  validate pageCount e = inl InvalidOrder.
Proof.
  intros H1 H2 H3. unfold validate.
  replace (first e >? pageCount) with false by lia.
  replace (last e >? pageCount) with false by lia.
  now replace (last e <? first e) with true by lia.
Qed.

Lemma validate_zero pageCount e :
  first e <= pageCount -> last e <= pageCount -> first e <= last e ->
  first e = 0 -> validate pageCount e = inl InvalidPageNumber.
Proof.
  intros H1 H2 H3 H4. unfold validate.
  replace (first e >? pageCount) with false by lia.
  replace (last e >? pageCount) with false by lia.
  replace (last e <? first e) with false by lia.
  now replace (first e =? 0) with true by lia.
Qed.

Lemma validate_error pageCount e err :
  validate pageCount e = inl err ->
  err = OutOfRange \/ err = InvalidOrder \/ err = InvalidPageNumber.
Proof.
  unfold validate.
  destruct ((first e >? pageCount) || (last e >? pageCount));
    [intros [= <-]; auto|].
  destruct (last e <? first e); [intros [= <-]; auto|].
  destruct (first e =? 0); [intros [= <-]; auto | discriminate].
Qed.

Lemma parse_token_error entry0 pageCount s err :
  parse_token entry0 pageCount s = inl err ->
  err = InvalidRange \/ err = OutOfRange \/ err = InvalidOrder \/
  err = InvalidPageNumber.
Proof.
  unfold parse_token. rewrite recognise_classify.
  destruct (classify s) as [sh|]; [|intros [= <-]; auto].
  intros H. apply validate_error in H. tauto.
Qed.

(** ** The loop *)

Lemma parse_loop_inr entry0 pageCount toks acc res :
  parse_loop entry0 pageCount toks acc = inr res <->
  exists es,
    res = acc ++ es /\
    Forall2 (fun t e => parse_token entry0 pageCount t = inr e) toks es.
Proof.
  revert acc res. induction toks as [|t rest IH]; intros acc res; simpl.
  - split.
    + intros [= <-]. exists []. now rewrite app_nil_r.
    + intros (es & -> & F). inversion F. now rewrite app_nil_r.
  - destruct (parse_token entry0 pageCount t) as [err|e] eqn:E.
    + split; [discriminate|]. intros (es & _ & F). inversion F. congruence.
    + rewrite IH. split.
      * intros (es & -> & F). exists (e :: es). rewrite <- app_assoc.
        split; [reflexivity | now constructor].
      * intros (es & -> & F). inversion F as [|t' e' rest' es' He F']; subst.
        exists es'. rewrite <- app_assoc. split; [|exact F'].
        simpl. congruence.
Qed.

Lemma parse_loop_fail entry0 pageCount pre t post acc err :
  Forall (accepted entry0 pageCount) pre ->
  parse_token entry0 pageCount t = inl err ->
  parse_loop entry0 pageCount (pre ++ t :: post) acc = inl err.
Proof.
  intros Hpre Ht. revert acc.
  induction Hpre as [|u pre [e He] _ IH]; intros acc; simpl.
  - now rewrite Ht.
  - rewrite He. apply IH.
Qed.

Lemma parse_loop_inl entry0 pageCount toks acc err :
  parse_loop entry0 pageCount toks acc = inl err ->
  exists t, In t toks /\ parse_token entry0 pageCount t = inl err.
Proof.
  revert acc. induction toks as [|t rest IH]; intros acc; simpl.
  - discriminate.
  - destruct (parse_token entry0 pageCount t) as [err'|e] eqn:E.
    + intros [= <-]. exists t. auto.
    + intros H. destruct (IH _ H) as (u & Hu & Eu). exists u. auto.
Qed.

(** ** The tokens *)

Lemma tokens_from_sep cur s c rest :
  is_separator c = true ->
  tokens_from cur (s ++ c :: rest) =
  tokens_from cur (s ++ [c]) ++ tokens_from [] rest.
Proof.
  intros Hc. revert cur. induction s as [|a t IH]; intros cur; simpl.
  - now rewrite Hc.
  - destruct (is_separator a); [now rewrite IH | apply IH].
Qed.

Lemma tokens_from_last cur s a c :
  is_separator a = false -> is_separator c = true ->
  tokens_from cur (s ++ [a; c]) = tokens_from cur (s ++ [a]).
Proof.
  intros Ha Hc. revert cur. induction s as [|b t IH]; intros cur; simpl.
  - now rewrite Ha, Hc.
  - destruct (is_separator b); [now rewrite IH | apply IH].
Qed.

Lemma tokens_from_no_sep cur s c :
  existsb is_separator s = false -> is_separator c = true ->
  tokens_from cur (s ++ [c]) = [rev cur ++ s].
Proof.
  intros Hs Hc. revert cur. induction s as [|a t IH]; intros cur; simpl.
  - now rewrite Hc, app_nil_r.
  - simpl in Hs. apply orb_false_iff in Hs as [Ha Ht]. rewrite Ha.
    rewrite (IH Ht). simpl. now rewrite <- app_assoc.
Qed.

Lemma tokens_with_sep s c rest :
  is_separator c = true ->
  tokens (s ++ c :: rest) = tokens_from [] (s ++ c :: rest).
Proof.
  intros Hc. unfold tokens. rewrite existsb_app. simpl. rewrite Hc.
  now rewrite orb_true_r.
Qed.

(** A separator at the very end adds no token. *)
Lemma tokens_trailing s a c :
  is_separator a = false -> is_separator c = true ->
  tokens (s ++ [a; c]) = tokens (s ++ [a]).
Proof.
  intros Ha Hc.
  change (s ++ [a; c]) with (s ++ [a] ++ [c]). rewrite app_assoc.
  rewrite tokens_with_sep by exact Hc. unfold tokens.
  destruct (existsb is_separator (s ++ [a])) eqn:E.
  - rewrite <- app_assoc. now apply tokens_from_last.
  - now rewrite tokens_from_no_sep.
Qed.

(** A separator right after another, or at the very start, gives an empty
    token. *)
Lemma tokens_doubled s1 c1 c2 s2 :
  is_separator c1 = true -> is_separator c2 = true ->
  tokens (s1 ++ c1 :: c2 :: s2) =
  tokens_from [] (s1 ++ [c1]) ++ [] :: tokens_from [] s2.
Proof.
  intros H1 H2. rewrite tokens_with_sep, tokens_from_sep by exact H1.
  simpl. now rewrite H2.
Qed.

Lemma tokens_leading c s :
  is_separator c = true -> tokens (c :: s) = [] :: tokens_from [] s.
Proof.
  intros Hc. pose proof (tokens_with_sep [] c s Hc) as T. simpl in T.
  now rewrite T, Hc.
Qed.

Lemma parse_inr entry0 s pageCount es :
  pageCount <> 0 ->
  (parse entry0 s pageCount = inr es <->
   Forall2 (fun t e => parse_token entry0 pageCount t = inr e) (tokens s) es).
Proof.
  intros Hpc. unfold parse. apply Z.eqb_neq in Hpc. rewrite Hpc.
  rewrite parse_loop_inr. simpl. split.
  - now intros (es' & -> & F).
  - intros F. now exists es.
Qed.

Lemma parse_fail entry0 s pageCount pre t post err :
  pageCount <> 0 -> tokens s = pre ++ t :: post ->
  Forall (accepted entry0 pageCount) pre ->
  parse_token entry0 pageCount t = inl err ->
  parse entry0 s pageCount = inl err.
Proof.
  intros Hpc Ht Hpre He. unfold parse. apply Z.eqb_neq in Hpc.
  rewrite Hpc, Ht. now apply parse_loop_fail.
Qed.

Lemma parse_token_shape entry0 pageCount s sh :
  has_shape s sh ->
  parse_token entry0 pageCount s =
  validate pageCount (raw_entry entry0 pageCount sh).
Proof.
  intros H. unfold parse_token. rewrite recognise_classify.
  now rewrite (classify_complete s sh H).
Qed.

Lemma no_shape_invalid entry0 pageCount s :
  (forall sh, ~ has_shape s sh) ->
  parse_token entry0 pageCount s = inl InvalidRange.
Proof.
  intros H. unfold parse_token. rewrite recognise_classify.
  destruct (classify s) as [sh|] eqn:E; [|reflexivity].
  apply classify_sound in E. now apply H in E.
Qed.

(** ** The properties of [parse] *)

(** C1. For every input string and every [pageCount >= 1] on which
    [parse] succeeds, every entry of the returned sequence satisfies
    [0 <= first <= last < pageCount]. *)
Theorem C1_entries_in_bounds entry0 s pageCount es :
  entry_ok entry0 -> 1 <= pageCount <= SIZE_MAX ->
  parse entry0 s pageCount = inr es ->
  Forall (in_bounds pageCount) es.
Proof.
  intros H0 Hpc H. apply parse_inr in H; [|lia].
  induction H as [|t e toks es' He _ IH]; constructor; [|exact IH].
  unfold parse_token in He.
  destruct (recognise entry0 pageCount t) as [err|raw] eqn:R;
    [discriminate|].
  apply (validate_in_bounds pageCount raw); [|lia|exact He].
  now apply (recognise_ok entry0 pageCount t).
Qed.

(** C2. For every [pageCount >= 1] each of the five forms gives its entry:
    [n] gives [(n-1, n-1)], [n-] gives [(n-1, pageCount-1)], [-m] gives
    [(0, m-1)], [n-m] gives [(n-1, m-1)] and [-] gives
    [(0, pageCount-1)]; the result has one entry per token, in the order
    of the tokens; and [parse("1, 2-, -3, 4-5, -", 10)] is
    [{0,0},{1,9},{0,2},{3,4},{0,9}]. *)
Theorem C2_shapes_and_order :
  (forall entry0 pageCount s n,
      1 <= pageCount <= SIZE_MAX -> has_shape s (SinglePage n) ->
      1 <= decimal n <= pageCount ->
      parse_token entry0 pageCount s =
      inr (mkEntry (decimal n - 1) (decimal n - 1))) /\
  (forall entry0 pageCount s n,
      1 <= pageCount <= SIZE_MAX -> has_shape s (RightOpen n) ->
      1 <= decimal n <= pageCount ->
      parse_token entry0 pageCount s =
      inr (mkEntry (decimal n - 1) (pageCount - 1))) /\
  (forall entry0 pageCount s m,
      1 <= pageCount <= SIZE_MAX -> has_shape s (LeftOpen m) ->
      1 <= decimal m <= pageCount ->
      parse_token entry0 pageCount s = inr (mkEntry 0 (decimal m - 1))) /\
  (forall entry0 pageCount s n m,
      1 <= pageCount <= SIZE_MAX -> has_shape s (Closed n m) ->
      1 <= decimal n -> decimal n <= decimal m -> decimal m <= pageCount ->
      parse_token entry0 pageCount s =
      inr (mkEntry (decimal n - 1) (decimal m - 1))) /\
  (forall entry0 pageCount s,
      1 <= pageCount <= SIZE_MAX -> has_shape s BothOpen ->
      parse_token entry0 pageCount s = inr (mkEntry 0 (pageCount - 1))) /\
  (forall entry0 pageCount s es,
      1 <= pageCount ->
      (parse entry0 s pageCount = inr es <->
       Forall2 (fun t e => parse_token entry0 pageCount t = inr e)
               (tokens s) es)) /\
  (forall entry0,
      parse entry0 (str "1, 2-, -3, 4-5, -") 10 =
      inr [mkEntry 0 0; mkEntry 1 9; mkEntry 0 2; mkEntry 3 4; mkEntry 0 9]).
Proof.
  repeat apply conj.
  - intros entry0 pageCount s n Hpc Hs Hn.
    rewrite (parse_token_shape _ _ _ _ Hs).
    inversion Hs; subst. simpl.
    rewrite (from_chars_numeral n) by (auto; lia).
    now rewrite validate_pass by (simpl; lia).
  - intros entry0 pageCount s n Hpc Hs Hn.
    rewrite (parse_token_shape _ _ _ _ Hs).
    inversion Hs; subst. simpl.
    rewrite (from_chars_numeral n) by (auto; lia).
    now rewrite validate_pass by (simpl; lia).
  - intros entry0 pageCount s m Hpc Hs Hm.
    rewrite (parse_token_shape _ _ _ _ Hs).
    inversion Hs; subst. simpl.
    rewrite (from_chars_numeral m) by (auto; lia).
    now rewrite validate_pass by (simpl; lia).
  - intros entry0 pageCount s n m Hpc Hs Hn Hnm Hm.
    rewrite (parse_token_shape _ _ _ _ Hs).
    inversion Hs; subst. simpl.
    rewrite (from_chars_numeral n), (from_chars_numeral m) by (auto; lia).
    now rewrite validate_pass by (simpl; lia).
  - intros entry0 pageCount s Hpc Hs.
    rewrite (parse_token_shape _ _ _ _ Hs). simpl.
    now rewrite validate_pass by (simpl; lia).
  - intros entry0 pageCount s es Hpc. apply parse_inr. lia.
  - intros entry0. vm_compute. reflexivity.
Qed.

(** C3. A token whose bounds, counted from 1, have [first > pageCount] or
    [last > pageCount] makes [parse] fail with the out-of-range error: the
    bound is refused, not cut down to [pageCount]. *)
Theorem C3_out_of_range_rejected entry0 pageCount s pre t post e :
  pageCount <> 0 ->
  tokens s = pre ++ t :: post ->
  Forall (accepted entry0 pageCount) pre ->
  recognise entry0 pageCount t = inr e ->
  first e > pageCount \/ last e > pageCount ->
  parse_token entry0 pageCount t = inl OutOfRange /\
  parse entry0 s pageCount = inl OutOfRange.
Proof.
  intros Hpc Ht Hpre He Hout.
  assert (T : parse_token entry0 pageCount t = inl OutOfRange).
  { unfold parse_token. rewrite He. now apply validate_out_of_range. }
  split; [exact T|]. now apply (parse_fail entry0 s pageCount pre t post).
Qed.

(** C4. For every [pageCount >= 1], [parse] of the empty string fails with
    the invalid-range error: the empty input is one empty token, which is
    of none of the five forms. *)
Theorem C4_empty_input entry0 pageCount :
  1 <= pageCount ->
  tokens [] = [[]] /\
  (forall sh, ~ has_shape [] sh) /\
  parse entry0 [] pageCount = inl InvalidRange.
Proof.
  intros Hpc. split; [reflexivity|]. split.
  - intros sh H. apply classify_complete in H. discriminate H.
  - apply (parse_fail entry0 [] pageCount [] [] []);
      [lia | reflexivity | constructor | reflexivity].
Qed.

(** C5, in the form that holds of the code.  For a token the recogniser
    accepts, if its bounds
    pass the ordering check ([first <= last]) then [last = 0] only when
    [first = 0]; a token with a zero bound never gives an entry, and it
    fails with the page-number error when it has passed the two checks
    before. *)
Theorem C5_zero_bound entry0 pageCount s e :
  entry_ok entry0 -> 1 <= pageCount <= SIZE_MAX ->
  recognise entry0 pageCount s = inr e ->
  (first e <= last e -> last e = 0 -> first e = 0) /\
  (first e = 0 \/ last e = 0 ->
   exists err,
     parse_token entry0 pageCount s = inl err /\
     (err = OutOfRange \/ err = InvalidOrder \/ err = InvalidPageNumber)) /\
  (first e <= pageCount -> last e <= pageCount -> first e <= last e ->
   first e = 0 \/ last e = 0 ->
   parse_token entry0 pageCount s = inl InvalidPageNumber).
Proof.
  intros H0 Hpc He.
  destruct (recognise_ok entry0 pageCount s e H0 Hpc He) as [[Hf _] [Hl _]].
  unfold parse_token. rewrite He. repeat split.
  - lia.
  - intros Hz. destruct (validate pageCount e) as [err|e'] eqn:V.
    + exists err. split; [reflexivity|]. now apply (validate_error pageCount e).
    + apply validate_inr in V. lia.
  - intros H1 H2 H3 Hz. apply validate_zero; lia.
Qed.

(** C6. With [pageCount = 0], [parse] fails with the logic error whatever
    the text is; with any other [pageCount] a failure is one of the four
    invalid-argument errors, never that one. *)
Theorem C6_zero_page_count :
  (forall entry0 s, parse entry0 s 0 = inl InvalidConfiguration) /\
  class InvalidConfiguration = logic_error /\
  (forall entry0 s pageCount err,
      pageCount <> 0 -> parse entry0 s pageCount = inl err ->
      class err = invalid_argument /\
      (err = InvalidRange \/ err = OutOfRange \/ err = InvalidOrder \/
       err = InvalidPageNumber)).
Proof.
  split; [reflexivity|]. split; [reflexivity|].
  intros entry0 s pageCount err Hpc. unfold parse.
  apply Z.eqb_neq in Hpc. rewrite Hpc. intros H.
  apply parse_loop_inl in H as (t & _ & H).
  apply parse_token_error in H.
  split; [|exact H]. destruct H as [-> | [-> | [-> | ->]]]; reflexivity.
Qed.

(** C7. The checks come in the order upper bound, ordering, zero: bounds
    with one above [pageCount] fail as out of range whatever else holds of
    them, and bounds with [last < first] that passed the first check fail
    as out of order; so [parse("11-2", 10)] is the out-of-range error. *)
Theorem C7_check_order :
  (forall entry0 pageCount t e,
      recognise entry0 pageCount t = inr e ->
      (first e > pageCount \/ last e > pageCount ->
       parse_token entry0 pageCount t = inl OutOfRange) /\
      (first e <= pageCount -> last e <= pageCount -> last e < first e ->
       parse_token entry0 pageCount t = inl InvalidOrder) /\
      (first e <= pageCount -> last e <= pageCount -> first e <= last e ->
       first e = 0 ->
       parse_token entry0 pageCount t = inl InvalidPageNumber)) /\
  (forall entry0, parse entry0 (str "11-2") 10 = inl OutOfRange) /\
  (forall entry0, parse entry0 (str "5-2") 10 = inl InvalidOrder) /\
  (forall entry0, parse entry0 (str "0") 10 = inl InvalidPageNumber).
Proof.
  split; [|repeat split; intros entry0; vm_compute; reflexivity].
  intros entry0 pageCount t e He. unfold parse_token. rewrite He.
  repeat split.
  - apply validate_out_of_range.
  - apply validate_order.
  - apply validate_zero.
Qed.

(** C8. A token that is not, over its whole extent, of one of the five
    forms makes [parse] fail with the invalid-range error; so do
    [parse("1-2-3", 10)] and [parse("abc", 10)]. *)
Theorem C8_no_shape_invalid :
  (forall entry0 pageCount s pre t post,
      pageCount <> 0 ->
      tokens s = pre ++ t :: post ->
      Forall (accepted entry0 pageCount) pre ->
      (forall sh, ~ has_shape t sh) ->
      parse_token entry0 pageCount t = inl InvalidRange /\
      parse entry0 s pageCount = inl InvalidRange) /\
  (forall entry0, parse entry0 (str "1-2-3") 10 = inl InvalidRange) /\
  (forall entry0, parse entry0 (str "abc") 10 = inl InvalidRange).
Proof.
  split; [|split; intros entry0; vm_compute; reflexivity].
  intros entry0 pageCount s pre t post Hpc Ht Hpre Hno.
  pose proof (no_shape_invalid entry0 pageCount t Hno) as T.
  split; [exact T|]. now apply (parse_fail entry0 s pageCount pre t post).
Qed.

(** C9, on the code.  The digits of [2^64] do not fit [size_t]:
    [from_chars] reports it and leaves the bound as the entry was
    constructed, and the report is not looked at, so the bound is not the
    number written.  A sign or a decimal point in a number is refused. *)
Theorem C9_overflow_not_reported entry0 :
  decimal (str "18446744073709551616") = SIZE_MAX + 1 /\
  from_chars (str "18446744073709551616") (first entry0) =
    (errc_result_out_of_range, first entry0) /\
  recognise entry0 10 (str "18446744073709551616") =
    inr (mkEntry (first entry0) (first entry0)) /\
  parse zero_entry (str "18446744073709551616") 10 = inl InvalidPageNumber /\
  parse (mkEntry 3 3) (str "18446744073709551616") 10 = inr [mkEntry 2 2] /\
  parse entry0 (str "+1") 10 = inl InvalidRange /\
  parse entry0 (str "1.5") 10 = inl InvalidRange.
Proof.
  repeat split; vm_compute; reflexivity.
Qed.

(** C10. A separator at the end of the input adds no token, so
    [parse("1,", 10)] is [{0,0}]; a separator at the start, or right after
    another, gives an empty token, and an empty token reached by the loop
    fails with the invalid-range error, as in [",1"] and ["1,,2"]. *)
Theorem C10_trailing_separator :
  (forall s a c,
      is_separator a = false -> is_separator c = true ->
      tokens (s ++ [a; c]) = tokens (s ++ [a])) /\
  (forall entry0 pageCount s a c,
      is_separator a = false -> is_separator c = true ->
      parse entry0 (s ++ [a; c]) pageCount =
      parse entry0 (s ++ [a]) pageCount) /\
  (forall c s,
      is_separator c = true -> tokens (c :: s) = [] :: tokens_from [] s) /\
  (forall s1 c1 c2 s2,
      is_separator c1 = true -> is_separator c2 = true ->
      tokens (s1 ++ c1 :: c2 :: s2) =
      tokens_from [] (s1 ++ [c1]) ++ [] :: tokens_from [] s2) /\
  (forall entry0 pageCount s pre post,
      pageCount <> 0 ->
      tokens s = pre ++ [] :: post ->
      Forall (accepted entry0 pageCount) pre ->
      parse entry0 s pageCount = inl InvalidRange) /\
  (forall entry0, parse entry0 (str "1,") 10 = inr [mkEntry 0 0]) /\
  (forall entry0, parse entry0 (str ",1") 10 = inl InvalidRange) /\
  (forall entry0, parse entry0 (str "1,,2") 10 = inl InvalidRange).
Proof.
  repeat apply conj.
  - apply tokens_trailing.
  - intros entry0 pageCount s a c Ha Hc. unfold parse.
    now rewrite (tokens_trailing s a c Ha Hc).
  - apply tokens_leading.
  - apply tokens_doubled.
  - intros entry0 pageCount s pre post Hpc Ht Hpre.
    apply (parse_fail entry0 s pageCount pre [] post); auto.
  - intros entry0. vm_compute. reflexivity.
  - intros entry0. vm_compute. reflexivity.
  - intros entry0. vm_compute. reflexivity.
Qed.

(** ** The properties at concrete inputs *)

Lemma C1_entries_in_bounds_witness :
  entry_ok zero_entry /\ 1 <= 10 <= SIZE_MAX /\
  parse zero_entry (str "1, 2-, -3, 4-5, -") 10 =
    inr [mkEntry 0 0; mkEntry 1 9; mkEntry 0 2; mkEntry 3 4; mkEntry 0 9] /\
  Forall (in_bounds 10)
    [mkEntry 0 0; mkEntry 1 9; mkEntry 0 2; mkEntry 3 4; mkEntry 0 9].
Proof.
  assert (H0 : entry_ok zero_entry)
    by (unfold entry_ok, in_size_t, SIZE_MAX; simpl; lia).
  assert (Hpc : 1 <= 10 <= SIZE_MAX) by (unfold SIZE_MAX; lia).
  assert (Hp : parse zero_entry (str "1, 2-, -3, 4-5, -") 10 =
               inr [mkEntry 0 0; mkEntry 1 9; mkEntry 0 2; mkEntry 3 4;
                    mkEntry 0 9]) by reflexivity.
  split; [exact H0|]. split; [exact Hpc|]. split; [exact Hp|].
  exact (C1_entries_in_bounds zero_entry (str "1, 2-, -3, 4-5, -") 10 _
           H0 Hpc Hp).
Defined.

Lemma C2_shapes_and_order_witness :
  parse_token zero_entry 10 (str " 1 ") = inr (mkEntry 0 0) /\
  parse_token zero_entry 10 (str "2 - ") = inr (mkEntry 1 9) /\
  parse_token zero_entry 10 (str "- 3") = inr (mkEntry 0 2) /\
  parse_token zero_entry 10 (str "4 - 5") = inr (mkEntry 3 4) /\
  parse_token zero_entry 10 (str " - ") = inr (mkEntry 0 9) /\
  parse zero_entry (str "4-5;1") 10 = inr [mkEntry 3 4; mkEntry 0 0].
Proof.
  destruct C2_shapes_and_order as (S1 & S2 & S3 & S4 & S5 & O & _).
  assert (Hpc : 1 <= 10 <= SIZE_MAX) by (unfold SIZE_MAX; lia).
  assert (B0 : blank []) by reflexivity.
  assert (B1 : blank (str " ")) by reflexivity.
  assert (N : forall d, forallb isdigit (str d) = true -> str d <> [] ->
                        numeral (str d)) by (intros d Hd Hn; now split).
  repeat apply conj.
  - apply (S1 zero_entry 10 (str " 1 ") (str "1") Hpc).
    + apply (hs_single (str " ") (str "1") (str " ")); auto.
      apply N; [reflexivity | discriminate].
    + change (decimal (str "1")) with 1. lia.
  - apply (S2 zero_entry 10 (str "2 - ") (str "2") Hpc).
    + apply (hs_right_open [] (str "2") (str " ") (str " ")); auto.
      apply N; [reflexivity | discriminate].
    + change (decimal (str "2")) with 2. lia.
  - apply (S3 zero_entry 10 (str "- 3") (str "3") Hpc).
    + apply (hs_left_open [] (str " ") (str "3") []); auto.
      apply N; [reflexivity | discriminate].
    + change (decimal (str "3")) with 3. lia.
  - apply (S4 zero_entry 10 (str "4 - 5") (str "4") (str "5") Hpc).
    + apply (hs_closed [] (str "4") (str " ") (str " ") (str "5") []); auto;
        (apply N; [reflexivity | discriminate]).
    + change (decimal (str "4")) with 4. lia.
    + change (decimal (str "4")) with 4. change (decimal (str "5")) with 5.
      lia.
    + change (decimal (str "5")) with 5. lia.
  - apply (S5 zero_entry 10 (str " - ") Hpc).
    apply (hs_both_open (str " ") (str " ")); auto.
  - apply (O zero_entry 10 (str "4-5;1")); [lia|].
    repeat constructor.
Defined.

Lemma C3_out_of_range_rejected_witness :
  tokens (str "1, 0-42") = [str "1"; str " 0-42"] /\
  recognise zero_entry 10 (str " 0-42") = inr (mkEntry 0 42) /\
  parse_token zero_entry 10 (str " 0-42") = inl OutOfRange /\
  parse zero_entry (str "1, 0-42") 10 = inl OutOfRange.
Proof.
  split; [reflexivity|]. split; [reflexivity|].
  apply (C3_out_of_range_rejected zero_entry 10 (str "1, 0-42") [str "1"]
           (str " 0-42") [] (mkEntry 0 42)).
  - lia.
  - reflexivity.
  - constructor; [|constructor]. exists (mkEntry 0 0). reflexivity.
  - reflexivity.
  - right. simpl. lia.
Defined.

Lemma C4_empty_input_witness :
  1 <= 10 /\ parse zero_entry (str "") 10 = inl InvalidRange.
Proof.
  split; [lia|]. apply (C4_empty_input zero_entry 10). lia.
Defined.

(** C5 as stated fails on the left-open token [-0]: it is accepted with
    the bounds [(1, 0)], where [last] is zero and [first] is not, and it
    fails with the ordering error, not with the page-number error. *)
Lemma C5_counterexample :
  exists e,
    recognise zero_entry 10 (str "-0") = inr e /\
    last e = 0 /\ first e <> 0 /\
    parse zero_entry (str "-0") 10 = inl InvalidOrder /\
    InvalidOrder <> InvalidPageNumber.
Proof.
  exists (mkEntry 1 0). repeat split; try reflexivity; discriminate.
Qed.

Lemma C5_zero_bound_witness :
  entry_ok zero_entry /\ 1 <= 10 <= SIZE_MAX /\
  recognise zero_entry 10 (str "0") = inr (mkEntry 0 0) /\
  parse_token zero_entry 10 (str "0") = inl InvalidPageNumber.
Proof.
  assert (H0 : entry_ok zero_entry)
    by (unfold entry_ok, in_size_t, SIZE_MAX; simpl; lia).
  assert (Hpc : 1 <= 10 <= SIZE_MAX) by (unfold SIZE_MAX; lia).
  split; [exact H0|]. split; [exact Hpc|]. split; [reflexivity|].
  apply (C5_zero_bound zero_entry 10 (str "0") (mkEntry 0 0) H0 Hpc eq_refl);
    simpl; lia.
Defined.

Lemma C6_zero_page_count_witness :
  parse zero_entry (str "abc") 0 = inl InvalidConfiguration /\
  parse zero_entry (str "abc") 10 = inl InvalidRange /\
  class InvalidRange = invalid_argument.
Proof.
  destruct C6_zero_page_count as (Z0 & _ & NZ).
  split; [apply Z0|]. split; [reflexivity|].
  apply (NZ zero_entry (str "abc") 10 InvalidRange); [lia | reflexivity].
Defined.

Lemma C7_check_order_witness :
  recognise zero_entry 10 (str "11-2") = inr (mkEntry 11 2) /\
  parse_token zero_entry 10 (str "11-2") = inl OutOfRange /\
  recognise zero_entry 10 (str "5-2") = inr (mkEntry 5 2) /\
  parse_token zero_entry 10 (str "5-2") = inl InvalidOrder /\
  recognise zero_entry 10 (str "0-3") = inr (mkEntry 0 3) /\
  parse_token zero_entry 10 (str "0-3") = inl InvalidPageNumber.
Proof.
  destruct C7_check_order as (V & _).
  split; [reflexivity|]. split.
  { apply (V zero_entry 10 (str "11-2") (mkEntry 11 2) eq_refl).
    left. simpl. lia. }
  split; [reflexivity|]. split.
  { apply (V zero_entry 10 (str "5-2") (mkEntry 5 2) eq_refl); simpl; lia. }
  split; [reflexivity|].
  apply (V zero_entry 10 (str "0-3") (mkEntry 0 3) eq_refl); simpl; lia.
Defined.

Lemma C8_no_shape_invalid_witness :
  tokens (str "1,1-2-3") = [str "1"; str "1-2-3"] /\
  parse_token zero_entry 10 (str "1-2-3") = inl InvalidRange /\
  parse zero_entry (str "1,1-2-3") 10 = inl InvalidRange.
Proof.
  destruct C8_no_shape_invalid as (G & _).
  split; [reflexivity|].
  apply (G zero_entry 10 (str "1,1-2-3") [str "1"] (str "1-2-3") []).
  - lia.
  - reflexivity.
  - constructor; [|constructor]. exists (mkEntry 0 0). reflexivity.
  - intros sh H. apply classify_complete in H. discriminate H.
Defined.

Lemma C10_trailing_separator_witness :
  tokens (str "1,2,") = tokens (str "1,2") /\
  parse zero_entry (str "1,2,") 10 = parse zero_entry (str "1,2") 10 /\
  tokens (str ",1") = [[]; str "1"] /\
  tokens (str "1,,2") = [str "1"; []; str "2"] /\
  parse zero_entry (str "1,,2") 10 = inl InvalidRange.
Proof.
  destruct C10_trailing_separator as (T & P & L & D & E & _).
  repeat apply conj.
  - apply (T (str "1,") "2"%char ","%char); reflexivity.
  - apply (P zero_entry 10 (str "1,") "2"%char ","%char); reflexivity.
  - apply (L ","%char (str "1")). reflexivity.
  - apply (D (str "1") ","%char ","%char (str "2")); reflexivity.
  - apply (E zero_entry 10 (str "1,,2") [str "1"] [str "2"]).
    + lia.
    + reflexivity.
    + constructor; [|constructor]. exists (mkEntry 0 0). reflexivity.
Defined.

(** ** More on the tokens *)

Lemma tokens_from_plain cur s :
  existsb is_separator s = false -> (cur <> [] \/ s <> []) ->
  tokens_from cur s = [rev cur ++ s].
Proof.
  revert cur. induction s as [|a t IH]; intros cur Hs Hne; simpl.
  - destruct cur as [|b u]; [destruct Hne; congruence|].
    now rewrite app_nil_r.
  - simpl in Hs. apply orb_false_iff in Hs as [Ha Ht]. rewrite Ha.
    rewrite IH; [|exact Ht|left; discriminate].
    simpl. now rewrite <- app_assoc.
Qed.

Lemma tokens_from_nonempty s : s <> [] -> tokens_from [] s = tokens s.
Proof.
  intros Hs. unfold tokens.
  destruct (existsb is_separator s) eqn:E; [reflexivity|].
  apply tokens_from_plain; auto.
Qed.

Lemma existsb_rev (p : ascii -> bool) l : existsb p (rev l) = existsb p l.
Proof.
  induction l as [|a t IH]; simpl; [reflexivity|].
  rewrite existsb_app, IH. simpl. rewrite orb_false_r. apply orb_comm.
Qed.

Lemma tokens_from_no_separator cur s :
  existsb is_separator cur = false ->
  Forall (fun t => existsb is_separator t = false) (tokens_from cur s).
Proof.
  revert cur. induction s as [|a t IH]; intros cur Hc; simpl.
  - destruct cur as [|b u]; constructor; [|constructor].
    now rewrite existsb_rev.
  - destruct (is_separator a) eqn:Ha.
    + constructor; [now rewrite existsb_rev | now apply IH].
    + apply IH. simpl. now rewrite Ha, Hc.
Qed.

Lemma tokens_from_concat cur s :
  List.concat (tokens_from cur s) =
  rev cur ++ filter (fun a => negb (is_separator a)) s.
Proof.
  revert cur. induction s as [|a t IH]; intros cur; simpl.
  - destruct cur as [|b u]; simpl; now rewrite ?app_nil_r.
  - destruct (is_separator a) eqn:Ha; simpl.
    + now rewrite IH.
    + rewrite IH. simpl. now rewrite <- app_assoc.
Qed.

Lemma filter_no_separator s :
  existsb is_separator s = false ->
  filter (fun a => negb (is_separator a)) s = s.
Proof.
  induction s as [|a t IH]; simpl; [reflexivity|].
  intros H. apply orb_false_iff in H as [Ha Ht]. rewrite Ha. simpl.
  now rewrite IH.
Qed.

Lemma tokens_not_nil s : tokens s <> [].
Proof.
  unfold tokens. destruct (existsb is_separator s) eqn:E; [|discriminate].
  assert (G : forall cur, tokens_from cur s <> []).
  { induction s as [|a t IH]; [discriminate|]. intros cur. simpl in *.
    destruct (is_separator a); [discriminate|]. now apply IH. }
  apply G.
Qed.

Lemma tokens_from_same cur s1 s2 :
  Forall2 same_separation s1 s2 -> tokens_from cur s1 = tokens_from cur s2.
Proof.
  intros H. revert cur.
  induction H as [|a b s1 s2 [<-|[Ha Hb]] _ IH]; intros cur; simpl.
  - reflexivity.
  - destruct (is_separator a); now rewrite IH.
  - now rewrite Ha, Hb, IH.
Qed.

Lemma tokens_same s1 s2 :
  Forall2 same_separation s1 s2 -> tokens s1 = tokens s2.
Proof.
  intros H. unfold tokens.
  assert (E : existsb is_separator s1 = existsb is_separator s2).
  { induction H as [|a b s1 s2 [<-|[Ha Hb]] _ IH]; simpl;
      [reflexivity | now rewrite IH | now rewrite Ha, Hb]. }
  rewrite E. destruct (existsb is_separator s2) eqn:E2.
  - now apply tokens_from_same.
  - clear E2. assert (G : s1 = s2); [|now rewrite G].
    induction H as [|a b s1 s2 [<-|[Ha Hb]] _ IH]; [reflexivity| |].
    + simpl in E. apply orb_false_iff in E as [_ E]. now rewrite IH.
    + simpl in E. rewrite Ha in E. discriminate.
Qed.

(** ** More on the scanner *)

Lemma take_while_snoc p s a :
  p a = false -> take_while p (s ++ [a]) = take_while p s.
Proof.
  intros Ha. induction s as [|b t IH]; simpl; [now rewrite Ha|].
  destruct (p b); [now rewrite IH | reflexivity].
Qed.

Lemma drop_while_snoc_stop p s a :
  p a = false -> drop_while p (s ++ [a]) = drop_while p s ++ [a].
Proof.
  intros Ha. induction s as [|b t IH]; simpl; [now rewrite Ha|].
  destruct (p b); [exact IH | reflexivity].
Qed.

Lemma drop_while_snoc_pass p s a :
  p a = true ->
  drop_while p (s ++ [a]) =
  match drop_while p s with [] => [] | _ :: _ => drop_while p s ++ [a] end.
Proof.
  intros Ha. induction s as [|b t IH]; simpl; [now rewrite Ha|].
  destruct (p b); [exact IH | reflexivity].
Qed.

(** One more whitespace character at the end of a token changes nothing
    for the scanner. *)
Lemma classify_snoc_space s a :
  isspace a = true -> classify (s ++ [a]) = classify s.
Proof.
  intros Ha. pose proof (space_not_digit a Ha) as Hd. unfold classify.
  cbv zeta. rewrite (drop_while_snoc_pass isspace s a Ha).
  destruct (drop_while isspace s) as [|b s1'] eqn:E1; [reflexivity|].
  rewrite (take_while_snoc isdigit (b :: s1') a Hd).
  rewrite (drop_while_snoc_stop isdigit (b :: s1') a Hd).
  rewrite (drop_while_snoc_pass isspace _ a Ha).
  destruct (drop_while isspace (drop_while isdigit (b :: s1')))
    as [|c s4] eqn:E3; [reflexivity|].
  cbn [app]. destruct (Ascii.eqb c "-"); [|reflexivity].
  rewrite (drop_while_snoc_pass isspace s4 a Ha).
  destruct (drop_while isspace s4) as [|d s5'] eqn:E5; [reflexivity|].
  rewrite (take_while_snoc isdigit (d :: s5') a Hd).
  rewrite (drop_while_snoc_stop isdigit (d :: s5') a Hd).
  rewrite (drop_while_snoc_pass isspace _ a Ha).
  now destruct (drop_while isspace (drop_while isdigit (d :: s5'))).
Qed.

Lemma classify_blank_after s w : blank w -> classify (s ++ w) = classify s.
Proof.
  revert s. induction w as [|a t IH]; intros s Hw.
  - now rewrite app_nil_r.
  - apply andb_prop in Hw as [Ha Ht].
    change (s ++ a :: t) with (s ++ [a] ++ t). rewrite app_assoc.
    rewrite (IH _ Ht). now apply classify_snoc_space.
Qed.

Lemma classify_blank_before w s : blank w -> classify (w ++ s) = classify s.
Proof.
  intros Hw. unfold classify. now rewrite (drop_while_app isspace w s Hw).
Qed.

Lemma forallb_impl (p q : ascii -> bool) l :
  (forall a, p a = true -> q a = true) ->
  forallb p l = true -> forallb q l = true.
Proof.
  intros Hpq. rewrite !forallb_forall. auto.
Qed.

Lemma blank_allowed w : blank w -> forallb allowed_char w = true.
Proof.
  apply forallb_impl. intros a Ha. unfold allowed_char.
  now rewrite Ha, orb_true_r.
Qed.

Lemma numeral_allowed n : numeral n -> forallb allowed_char n = true.
Proof.
  intros [_ Hn]. revert Hn. apply forallb_impl. intros a Ha.
  unfold allowed_char. now rewrite Ha.
Qed.

Lemma has_shape_allowed s sh : has_shape s sh -> forallb allowed_char s = true.
Proof.
  intros H. destruct H;
    repeat (rewrite forallb_app || cbn [forallb]);
    repeat match goal with
      | H : blank _ |- _ => apply blank_allowed in H; rewrite H; clear H
      | H : numeral _ |- _ => apply numeral_allowed in H; rewrite H; clear H
      end; reflexivity.
Qed.

Lemma accepted_allowed entry0 pageCount t :
  accepted entry0 pageCount t -> forallb allowed_char t = true.
Proof.
  intros [e He]. unfold parse_token in He.
  rewrite recognise_classify in He.
  destruct (classify t) as [sh|] eqn:E; [|discriminate].
  apply classify_sound in E. now apply (has_shape_allowed t sh).
Qed.

Lemma has_shape_unique s sh1 sh2 :
  has_shape s sh1 -> has_shape s sh2 -> sh1 = sh2.
Proof.
  intros H1 H2. apply classify_complete in H1, H2. congruence.
Qed.

(** ** More on the numbers *)

Lemma fold_decimal_zeros z acc :
  zeros z ->
  fold_left (fun acc a => 10 * acc + digit_value a) z acc =
  acc * 10 ^ Z.of_nat (List.length z).
Proof.
  revert acc. induction z as [|a t IH]; intros acc Hz.
  - simpl. lia.
  - apply andb_prop in Hz as [Ha Ht]. apply Ascii.eqb_eq in Ha. subst a.
    cbn [fold_left List.length]. rewrite (IH _ Ht).
    change (digit_value "0") with 0.
    rewrite Nat2Z.inj_succ, Z.pow_succ_r by lia. lia.
Qed.

Lemma decimal_zeros z n : zeros z -> decimal (z ++ n) = decimal n.
Proof.
  intros Hz. unfold decimal. rewrite fold_left_app.
  now rewrite (fold_decimal_zeros z 0 Hz).
Qed.

Lemma zeros_digits z : zeros z -> forallb isdigit z = true.
Proof.
  apply forallb_impl. intros a Ha. apply Ascii.eqb_eq in Ha. now subst a.
Qed.

Lemma from_chars_zeros z n v :
  zeros z -> numeral n -> from_chars (z ++ n) v = from_chars n v.
Proof.
  intros Hz [Hn Hd]. unfold from_chars.
  assert (Hzn : forallb isdigit (z ++ n) = true)
    by (now rewrite forallb_app, (zeros_digits z Hz), Hd).
  rewrite (take_while_id _ _ Hzn), (take_while_id _ _ Hd).
  destruct n as [|a t]; [congruence|].
  destruct (z ++ a :: t) as [|b u] eqn:E; [destruct z; discriminate|].
  rewrite <- E. now rewrite (decimal_zeros z (a :: t) Hz).
Qed.

(** ** More on the loop *)

Lemma parse_loop_acc entry0 pageCount toks acc :
  parse_loop entry0 pageCount toks acc =
  match parse_loop entry0 pageCount toks [] with
  | inl e => inl e
  | inr es => inr (acc ++ es)
  end.
Proof.
  revert acc. induction toks as [|t rest IH]; intros acc; simpl.
  - now rewrite app_nil_r.
  - destruct (parse_token entry0 pageCount t) as [err|e]; [reflexivity|].
    rewrite (IH (acc ++ [e])), (IH [e]).
    destruct (parse_loop entry0 pageCount rest []); [reflexivity|].
    now rewrite <- app_assoc.
Qed.

Lemma parse_loop_app entry0 pageCount toks1 toks2 acc :
  parse_loop entry0 pageCount (toks1 ++ toks2) acc =
  match parse_loop entry0 pageCount toks1 acc with
  | inl e => inl e
  | inr acc' => parse_loop entry0 pageCount toks2 acc'
  end.
Proof.
  revert acc. induction toks1 as [|t rest IH]; intros acc; simpl.
  - reflexivity.
  - destruct (parse_token entry0 pageCount t); [reflexivity | apply IH].
Qed.

Lemma parse_loop_first_failure entry0 pageCount toks acc err :
  parse_loop entry0 pageCount toks acc = inl err ->
  exists pre t post,
    toks = pre ++ t :: post /\ Forall (accepted entry0 pageCount) pre /\
    parse_token entry0 pageCount t = inl err.
Proof.
  revert acc. induction toks as [|t rest IH]; intros acc; simpl.
  - discriminate.
  - destruct (parse_token entry0 pageCount t) as [err'|e] eqn:E.
    + intros [= <-]. exists [], t, rest. repeat split; [constructor|exact E].
    + intros H. destruct (IH _ H) as (pre & u & post & -> & Hpre & Hu).
      exists (t :: pre), u, post. repeat split; [|exact Hu].
      constructor; [now exists e | exact Hpre].
Qed.

Lemma Forall2_accepted entry0 pageCount toks es :
  Forall2 (fun t e => parse_token entry0 pageCount t = inr e) toks es ->
  Forall (accepted entry0 pageCount) toks.
Proof.
  induction 1 as [|t e toks es He _ IH]; constructor; [now exists e | exact IH].
Qed.

Lemma space_not_separator a : isspace a = true -> is_separator a = false.
Proof.
  destruct a as [[] [] [] [] [] [] [] []]; vm_compute; congruence.
Qed.

Lemma blank_no_separator w : blank w -> existsb is_separator w = false.
Proof.
  intros Hw. induction w as [|a t IH]; [reflexivity|].
  apply andb_prop in Hw as [Ha Ht]. simpl.
  now rewrite (space_not_separator a Ha), (IH Ht).
Qed.

Lemma classify_blank w : blank w -> classify w = None.
Proof.
  intros Hw. rewrite <- (app_nil_r w). now rewrite classify_blank_before.
Qed.

Lemma parse_token_same_class entry0 pageCount s1 s2 :
  classify s1 = classify s2 ->
  parse_token entry0 pageCount s1 = parse_token entry0 pageCount s2.
Proof.
  intros E. unfold parse_token. now rewrite !recognise_classify, E.
Qed.

(** ** Further properties of [parse] *)

(** X1. A successful [parse] gives as many entries as the input has
    tokens, and at least one. *)
Theorem X1_entries_count entry0 s pageCount es :
  pageCount <> 0 ->
  parse entry0 s pageCount = inr es ->
  List.length es = List.length (tokens s) /\ es <> [].
Proof.
  intros Hpc H. apply parse_inr in H; [|exact Hpc].
  pose proof (tokens_not_nil s) as N.
  split; [symmetry; now apply (Forall2_length H)|].
  intros ->. inversion H as [E|]. congruence.
Qed.

(** X2. No token holds a separator, and the tokens hold, in order, the
    characters of the input that are not separators. *)
Theorem X2_tokens_partition s :
  Forall (fun t => existsb is_separator t = false) (tokens s) /\
  List.concat (tokens s) = filter (fun a => negb (is_separator a)) s.
Proof.
  unfold tokens. destruct (existsb is_separator s) eqn:E.
  - split; [now apply tokens_from_no_separator | apply tokens_from_concat].
  - split; [now repeat constructor|]. simpl.
    now rewrite app_nil_r, filter_no_separator.
Qed.

(** X3. An input on which [parse] succeeds is made of digits, whitespace,
    dashes and separators only. *)
Theorem X3_accepted_alphabet entry0 s pageCount es :
  pageCount <> 0 ->
  parse entry0 s pageCount = inr es ->
  forallb allowed_char s = true.
Proof.
  intros Hpc H. apply parse_inr in H; [|exact Hpc].
  apply Forall2_accepted in H. rewrite Forall_forall in H.
  apply forallb_forall. intros a Ha.
  destruct (is_separator a) eqn:Sa.
  - unfold allowed_char. now rewrite Sa, orb_true_r.
  - assert (Hin : In a (List.concat (tokens s))).
    { unfold tokens. destruct (existsb is_separator s) eqn:E.
      - rewrite tokens_from_concat. simpl. apply filter_In.
        now rewrite Sa.
      - simpl. now rewrite app_nil_r. }
    apply in_concat in Hin as (t & Ht & Hat).
    pose proof (accepted_allowed _ _ _ (H t Ht)) as A.
    rewrite forallb_forall in A. now apply A.
Qed.

(** X4. The three separators are interchangeable: two inputs that differ
    only in which separator stands where give the same result. *)
Theorem X4_separators_interchangeable entry0 s1 s2 pageCount :
  Forall2 same_separation s1 s2 ->
  parse entry0 s1 pageCount = parse entry0 s2 pageCount.
Proof.
  intros H. unfold parse. now rewrite (tokens_same s1 s2 H).
Qed.

(** X5. Whitespace before and after a token is ignored: the token gives
    the same entry, or the same error, without it. *)
Theorem X5_whitespace_ignored entry0 pageCount w1 t w2 :
  blank w1 -> blank w2 ->
  parse_token entry0 pageCount (w1 ++ t ++ w2) =
  parse_token entry0 pageCount t.
Proof.
  intros H1 H2. apply parse_token_same_class.
  now rewrite classify_blank_before, classify_blank_after.
Qed.

(** X6. Whitespace after the last separator is a token of its own and is
    refused: such an input never parses, while the same input without
    that whitespace may. *)
Theorem X6_space_after_last_separator entry0 pageCount s c w :
  pageCount <> 0 -> is_separator c = true -> blank w -> w <> [] ->
  exists err, parse entry0 (s ++ c :: w) pageCount = inl err.
Proof.
  intros Hpc Hc Hw Hne. unfold parse. apply Z.eqb_neq in Hpc. rewrite Hpc.
  rewrite tokens_with_sep, tokens_from_sep by exact Hc.
  rewrite (tokens_from_plain [] w (blank_no_separator w Hw)) by auto.
  rewrite parse_loop_app.
  destruct (parse_loop entry0 pageCount (tokens_from [] (s ++ [c])) [])
    as [err|acc]; [now exists err|].
  exists InvalidRange. cbn [rev app parse_loop]. unfold parse_token.
  now rewrite recognise_classify, (classify_blank w Hw).
Qed.

(** X7. Zeros before a page number do not count, however many there
    are. *)
Theorem X7_leading_zeros entry0 pageCount z n :
  zeros z -> numeral n ->
  parse_token entry0 pageCount (z ++ n) = parse_token entry0 pageCount n.
Proof.
  intros Hz Hn.
  assert (Hzn : numeral (z ++ n)).
  { destruct Hn as [Hn Hd]. split.
    - destruct z; [exact Hn | discriminate].
    - now rewrite forallb_app, (zeros_digits z Hz), Hd. }
  assert (S1 : has_shape (z ++ n) (SinglePage (z ++ n))).
  { pose proof (hs_single [] (z ++ n) [] eq_refl Hzn eq_refl) as S.
    now rewrite app_nil_r in S. }
  assert (S2 : has_shape n (SinglePage n)).
  { pose proof (hs_single [] n [] eq_refl Hn eq_refl) as S.
    now rewrite app_nil_r in S. }
  rewrite (parse_token_shape _ _ _ _ S1), (parse_token_shape _ _ _ _ S2).
  cbn [raw_entry]. now rewrite (from_chars_zeros z n _ Hz Hn).
Qed.

(** X8. Parsing goes over a separator piece by piece: when the text before
    the separator is empty or ends in something else than a separator,
    and the text after it is not empty, the result is the entries of the
    one followed by the entries of the other, or the first error. *)
Theorem X8_parse_at_separator entry0 pageCount s1 c s2 :
  pageCount <> 0 -> is_separator c = true -> s2 <> [] ->
  (s1 = [] \/ exists s a, s1 = s ++ [a] /\ is_separator a = false) ->
  tokens (s1 ++ c :: s2) = tokens s1 ++ tokens s2 /\
  parse entry0 (s1 ++ c :: s2) pageCount =
  append_results (parse entry0 s1 pageCount) (parse entry0 s2 pageCount).
Proof.
  intros Hpc Hc Hs2 Hs1.
  assert (T : tokens (s1 ++ c :: s2) = tokens s1 ++ tokens s2).
  { rewrite tokens_with_sep, tokens_from_sep by exact Hc.
    rewrite (tokens_from_nonempty s2 Hs2). f_equal.
    destruct Hs1 as [->|(s & a & -> & Ha)]; [simpl; now rewrite Hc|].
    rewrite <- (tokens_trailing s a c Ha Hc).
    pose proof (tokens_with_sep (s ++ [a]) c [] Hc) as W.
    rewrite <- app_assoc in W. rewrite <- app_assoc. symmetry. exact W. }
  split; [exact T|]. unfold parse, append_results.
  apply Z.eqb_neq in Hpc. rewrite Hpc, T, parse_loop_app.
  destruct (parse_loop entry0 pageCount (tokens s1) []) as [err|es1];
    [reflexivity|].
  apply parse_loop_acc.
Qed.

(** X9. An input that parses for a document still parses when the
    document has more pages: every entry keeps its first page, and keeps
    its last page unless that was the last page of the document, which
    an open end follows. *)
Theorem X9_more_pages entry0 s pageCount pageCount' es :
  1 <= pageCount -> pageCount <= pageCount' ->
  parse entry0 s pageCount = inr es ->
  exists es',
    parse entry0 s pageCount' = inr es' /\
    Forall2 (fun e e' =>
               first e' = first e /\
               (last e' = last e \/
                (last e = wrap (pageCount - 1) /\
                 last e' = wrap (pageCount' - 1)))) es es'.
Proof.
  intros Hpc Hle H. apply parse_inr in H; [|lia].
  assert (G : exists es',
             Forall2 (fun t e => parse_token entry0 pageCount' t = inr e)
                     (tokens s) es' /\
             Forall2 (fun e e' =>
               first e' = first e /\
               (last e' = last e \/
                (last e = wrap (pageCount - 1) /\
                 last e' = wrap (pageCount' - 1)))) es es').
  { induction H as [|t e toks es He _ (es' & F1 & F2)].
    - exists []. split; constructor.
    - unfold parse_token in He. rewrite recognise_classify in He.
      destruct (classify t) as [sh|] eqn:E; [|discriminate].
      apply validate_inr in He as (H1 & H2 & H3 & H4 & ->).
      assert (V : exists e',
                 validate pageCount' (raw_entry entry0 pageCount' sh)
                 = inr e' /\
                 first e' = wrap (first (raw_entry entry0 pageCount sh) - 1)
                 /\ (last e' =
                     wrap (last (raw_entry entry0 pageCount sh) - 1) \/
                     (last (raw_entry entry0 pageCount sh) = pageCount /\
                      last e' = wrap (pageCount' - 1)))).
      { unfold validate.
        destruct sh as [n|n|m|n m|]; cbn [raw_entry first last] in *.
        - replace (_ >? pageCount') with false by lia.
          replace (_ <? _) with false by lia.
          replace (_ =? 0) with false by lia. simpl. eauto.
        - replace (_ >? pageCount') with false by lia.
          replace (pageCount' >? pageCount') with false by lia.
          replace (_ <? _) with false by lia.
          replace (_ =? 0) with false by lia. simpl. eauto 6.
        - replace (1 >? pageCount') with false by lia.
          replace (_ >? pageCount') with false by lia.
          replace (_ <? 1) with false by lia. simpl. eauto.
        - replace (_ >? pageCount') with false by lia.
          replace (_ >? pageCount') with false by lia.
          replace (_ <? _) with false by lia.
          replace (_ =? 0) with false by lia. simpl. eauto.
        - replace (1 >? pageCount') with false by lia.
          replace (pageCount' >? pageCount') with false by lia.
          replace (pageCount' <? 1) with false by lia. simpl. eauto 6. }
      destruct V as (e' & Ve & Vf & Vl). exists (e' :: es'). split.
      + constructor; [|exact F1]. unfold parse_token.
        now rewrite recognise_classify, E.
      + constructor; [|exact F2]. cbn [first last]. split; [exact Vf|].
        destruct Vl as [Vl|[Vl1 Vl2]]; [now left|right].
        now rewrite Vl1. }
  destruct G as (es' & F1 & F2). exists es'. split; [|exact F2].
  apply parse_inr; [lia | exact F1].
Qed.

(** X10. When [parse] fails, its error is the error of the first token
    that is refused; the tokens before it were all accepted. *)
Theorem X10_first_failure entry0 s pageCount err :
  pageCount <> 0 ->
  parse entry0 s pageCount = inl err ->
  exists pre t post,
    tokens s = pre ++ t :: post /\
    Forall (accepted entry0 pageCount) pre /\
    parse_token entry0 pageCount t = inl err.
Proof.
  intros Hpc. unfold parse. apply Z.eqb_neq in Hpc. rewrite Hpc.
  apply parse_loop_first_failure.
Qed.

(** X11. The five expressions exclude one another: no token matches two
    of them, so the order in which the loop body tries them does not
    matter. *)
Theorem X11_cases_exclusive s r1 r2 :
  In r1 cases -> In r2 cases ->
  regex_match s r1 <> None -> regex_match s r2 <> None -> r1 = r2.
Proof.
  unfold cases. cbn [In]. intros H1 H2.
  pose proof (match_singlePage s) as M1.
  pose proof (match_rightOpenRange s) as M2.
  pose proof (match_leftOpenRange s) as M3.
  pose proof (match_pageRange s) as M4.
  pose proof (match_bothOpenRange s) as M5.
  destruct (classify s) as [[n|n|m|n m|]|];
    destruct H1 as [<-|[<-|[<-|[<-|[<-|[]]]]]];
    destruct H2 as [<-|[<-|[<-|[<-|[<-|[]]]]]];
    intros N1 N2; try reflexivity; congruence.
Qed.

(** X12. The loop body accepts exactly the tokens of the five forms of
    the grammar, with the bounds of the form. *)
Theorem X12_recognise_grammar entry0 pageCount s e :
  recognise entry0 pageCount s = inr e <->
  exists sh, has_shape s sh /\ e = raw_entry entry0 pageCount sh.
Proof.
  rewrite recognise_classify. split.
  - destruct (classify s) as [sh|] eqn:E; [|discriminate].
    intros [= <-]. exists sh. split; [now apply classify_sound | reflexivity].
  - intros (sh & H & ->). now rewrite (classify_complete s sh H).
Qed.

(** ** The further properties at concrete inputs *)

Lemma X1_entries_count_witness :
  parse zero_entry (str "1,2-3") 10 = inr [mkEntry 0 0; mkEntry 1 2] /\
  List.length [mkEntry 0 0; mkEntry 1 2] = List.length (tokens (str "1,2-3")) /\
  [mkEntry 0 0; mkEntry 1 2] <> [].
Proof.
  split; [reflexivity|].
  apply (X1_entries_count zero_entry (str "1,2-3") 10); [lia | reflexivity].
Defined.

Lemma X3_accepted_alphabet_witness :
  parse zero_entry (str "1, 2-") 10 = inr [mkEntry 0 0; mkEntry 1 9] /\
  forallb allowed_char (str "1, 2-") = true.
Proof.
  split; [reflexivity|].
  apply (X3_accepted_alphabet zero_entry (str "1, 2-") 10
           [mkEntry 0 0; mkEntry 1 9]); [lia | reflexivity].
Defined.

Lemma X4_separators_interchangeable_witness :
  parse zero_entry (str "1,2;3") 10 = parse zero_entry (str "1:2,3") 10.
Proof.
  apply (X4_separators_interchangeable zero_entry (str "1,2;3")
           (str "1:2,3") 10).
  repeat (constructor;
          [first [left; reflexivity | right; split; reflexivity]|]).
  constructor.
Defined.

Lemma X5_whitespace_ignored_witness :
  parse_token zero_entry 10 (str " 4-5  ") =
  parse_token zero_entry 10 (str "4-5").
Proof.
  apply (X5_whitespace_ignored zero_entry 10 (str " ") (str "4-5")
           (str "  ")); reflexivity.
Defined.

Lemma X6_space_after_last_separator_witness :
  exists err, parse zero_entry (str "1, ") 10 = inl err.
Proof.
  apply (X6_space_after_last_separator zero_entry 10 (str "1") ","%char
           (str " ")); [lia | reflexivity | reflexivity | discriminate].
Defined.

Lemma X7_leading_zeros_witness :
  parse_token zero_entry 10 (str "007") = parse_token zero_entry 10 (str "7").
Proof.
  apply (X7_leading_zeros zero_entry 10 (str "00") (str "7"));
    [reflexivity | split; [discriminate | reflexivity]].
Defined.

Lemma X8_parse_at_separator_witness :
  tokens (str "1-2;3") = tokens (str "1-2") ++ tokens (str "3") /\
  parse zero_entry (str "1-2;3") 10 =
  append_results (parse zero_entry (str "1-2") 10)
                 (parse zero_entry (str "3") 10).
Proof.
  apply (X8_parse_at_separator zero_entry 10 (str "1-2") ";"%char (str "3"));
    [lia | reflexivity | discriminate|].
  right. exists (str "1-"), "2"%char. split; reflexivity.
Defined.

Lemma X9_more_pages_witness :
  exists es',
    parse zero_entry (str "2-, 3") 10 = inr es' /\
    Forall2 (fun e e' =>
               first e' = first e /\
               (last e' = last e \/
                (last e = wrap (5 - 1) /\ last e' = wrap (10 - 1))))
            [mkEntry 1 4; mkEntry 2 2] es'.
Proof.
  apply (X9_more_pages zero_entry (str "2-, 3") 5 10); [lia | lia|].
  reflexivity.
Defined.

Lemma X10_first_failure_witness :
  exists pre t post,
    tokens (str "1,abc,0") = pre ++ t :: post /\
    Forall (accepted zero_entry 10) pre /\
    parse_token zero_entry 10 t = inl InvalidRange.
Proof.
  apply (X10_first_failure zero_entry (str "1,abc,0") 10 InvalidRange);
    [lia | reflexivity].
Defined.

Lemma X11_cases_exclusive_witness :
  regex_match (str "1-2") pageRange <> None /\ pageRange = pageRange.
Proof.
  assert (M : regex_match (str "1-2") pageRange <> None)
    by (vm_compute; discriminate).
  split; [exact M|].
  apply (X11_cases_exclusive (str "1-2") pageRange pageRange);
    try exact M; unfold cases; cbn [In]; auto.
Defined.

Lemma X12_recognise_grammar_witness :
  recognise zero_entry 10 (str "4-5") = inr (mkEntry 4 5).
Proof.
  apply (X12_recognise_grammar zero_entry 10 (str "4-5") (mkEntry 4 5)).
  exists (Closed (str "4") (str "5")). split; [|reflexivity].
  apply (hs_closed [] (str "4") [] [] (str "5") []);
    try reflexivity; (split; [discriminate | reflexivity]).
Defined.

(** ** Drawing a page *)

Import DocumentView.

Lemma draw_layers_map `{Toolkit} this context area layers :
  draw_layers this context area layers =
  map (layer_call (is_minus_one (lX this)) context area)
      (filter isVisible layers).
Proof.
  induction layers as [|l rest IH]; [reflexivity|].
  cbn [draw_layers filter]. rewrite IH.
  destruct (isVisible l); [|reflexivity].
  unfold layer_call at 2. now destruct (is_minus_one (lX this)).
Qed.

Lemma filter_layer_calls `{Toolkit} whole context area layers :
  filter is_layer_call (map (layer_call whole context area) layers) =
  map (layer_call whole context area) layers.
Proof.
  induction layers as [|l rest IH]; [reflexivity|].
  cbn [map filter]. rewrite IH. now destruct whole.
Qed.

Lemma filter_other_calls `{Toolkit} whole context area layers :
  filter (fun c => negb (is_layer_call c))
         (map (layer_call whole context area) layers) = [].
Proof.
  induction layers as [|l rest IH]; [reflexivity|].
  cbn [map filter]. rewrite IH. now destruct whole.
Qed.

(** What [drawPage] does on a page, in one expression. *)
Lemma drawPage_page `{Toolkit} this p cr' dont hidePdf hideImage hideRuling :
  drawPage this (Some p) cr' dont hidePdf hideImage hideRuling =
  Some
    (mkView (markAudioStroke this) minus_one minus_one minus_one minus_one
            None None (getWidth p) (getHeight p) dont,
     (if isLayerVisible p 0 then
        if isPdfPage (getBackgroundType p) then []
        else if isImagePage (getBackgroundType p) && negb hideImage then
          [ImageBackgroundView_draw (getBackgroundImage p) (getWidth p)
             (getHeight p) cr']
        else if negb hideRuling then
          [BackgroundView_draw (getWidth p) (getHeight p)
             (getBackgroundColor p) (getBackgroundType p) cr']
        else []
      else
        [TransparentCheckerboardBackgroundView_draw (getWidth p)
           (getHeight p) cr']) ++
     map (layer_call (is_minus_one (lX this))
            (mkContext cr' (markAudioStroke this) (negb dont) NORMAL_COLOR)
            (mkRectangle (lX this) (lY this) (lWidth this) (lHeight this)))
         (filter isVisible (getLayers p))).
Proof.
  unfold drawPage, initDrawing, drawBackground, finializeDrawing.
  cbn [page cr markAudioStroke lX lY lWidth lHeight width height
       dontRenderEditingStroke].
  rewrite draw_layers_map. cbn [lX].
  destruct (isLayerVisible p 0); cbn [negb].
  - destruct (isPdfPage (getBackgroundType p)); [reflexivity|].
    destruct (isImagePage (getBackgroundType p) && negb hideImage);
      [reflexivity|].
    destruct (negb hideRuling); reflexivity.
  - reflexivity.
Qed.


(** X14. [drawPage] draws every visible layer of the page once, in the
    order of the layers, and no hidden one; what it draws for the
    background, one call at most, comes before the layers.  The context
    of the layers has the audio mark of the view and edits the current
    stroke unless told not to. *)
Theorem X14_visible_layers_in_order `{Toolkit} this p cr' dont hidePdf
    hideImage hideRuling this' calls :
  drawPage this (Some p) cr' dont hidePdf hideImage hideRuling =
  Some (this', calls) ->
  filter is_layer_call calls =
  map (layer_call (is_minus_one (lX this))
         (mkContext cr' (markAudioStroke this) (negb dont) NORMAL_COLOR)
         (mkRectangle (lX this) (lY this) (lWidth this) (lHeight this)))
      (filter isVisible (getLayers p)) /\
  calls =
  filter (fun c => negb (is_layer_call c)) calls ++
  filter is_layer_call calls /\
  (List.length (filter (fun c => negb (is_layer_call c)) calls) <= 1)%nat.
Proof.
  rewrite drawPage_page. intros [= _ <-].
  rewrite !filter_app, filter_layer_calls, filter_other_calls, app_nil_r.
  destruct (isLayerVisible p 0);
    [destruct (isPdfPage (getBackgroundType p));
     [|destruct (isImagePage (getBackgroundType p) && negb hideImage);
       [|destruct (negb hideRuling)]]|];
    cbn; repeat split; lia.
Qed.

(** X15. What [drawPage] draws behind the layers: the checkerboard when
    the background layer is hidden; otherwise nothing for a PDF page, the
    image for an image page unless images are hidden, and else the ruling
    of the page type unless rulings are hidden.  The flag for PDF
    backgrounds changes nothing. *)
Theorem X15_background `{Toolkit} this p cr' dont hidePdf hideImage
    hideRuling this' calls :
  drawPage this (Some p) cr' dont hidePdf hideImage hideRuling =
  Some (this', calls) ->
  filter (fun c => negb (is_layer_call c)) calls =
  (if negb (isLayerVisible p 0) then
     [TransparentCheckerboardBackgroundView_draw (getWidth p) (getHeight p)
        cr']
   else if isPdfPage (getBackgroundType p) then []
   else if isImagePage (getBackgroundType p) && negb hideImage then
     [ImageBackgroundView_draw (getBackgroundImage p) (getWidth p)
        (getHeight p) cr']
   else if hideRuling then []
   else [BackgroundView_draw (getWidth p) (getHeight p)
           (getBackgroundColor p) (getBackgroundType p) cr']) /\
  drawPage this (Some p) cr' dont (negb hidePdf) hideImage hideRuling =
  Some (this', calls).
Proof.
  rewrite !drawPage_page. intros [= <- <-]. split; [|reflexivity].
  rewrite filter_app, filter_other_calls, app_nil_r.
  destruct (isLayerVisible p 0); [|reflexivity]. cbn [negb].
  destruct (isPdfPage (getBackgroundType p)); [reflexivity|].
  destruct (isImagePage (getBackgroundType p) && negb hideImage);
    [reflexivity|].
  now destruct hideRuling.
Qed.

(** X16. After [limitArea] with an [x] other than [-1], [drawPage] draws
    every visible layer within that area; with [x = -1] the area is not
    used, whatever the other three values are, and the layers are drawn
    whole. *)
Theorem X16_limitArea `{Toolkit} this x y w h p cr' dont hidePdf hideImage
    hideRuling this' calls :
  drawPage (limitArea this x y w h) (Some p) cr' dont hidePdf hideImage
    hideRuling = Some (this', calls) ->
  (is_minus_one x = false ->
   filter is_layer_call calls =
   map (fun layer =>
          LayerView_draw_area layer
            (mkContext cr' (markAudioStroke this) (negb dont) NORMAL_COLOR)
            (mkRectangle x y w h))
       (filter isVisible (getLayers p))) /\
  (is_minus_one x = true ->
   filter is_layer_call calls =
   map (fun layer =>
          LayerView_draw layer
            (mkContext cr' (markAudioStroke this) (negb dont) NORMAL_COLOR))
       (filter isVisible (getLayers p))).
Proof.
  rewrite drawPage_page. intros [= _ <-].
  cbn [limitArea lX lY lWidth lHeight markAudioStroke].
  rewrite filter_app, filter_layer_calls.
  split; intros E; rewrite E;
    (destruct (isLayerVisible p 0);
     [destruct (isPdfPage (getBackgroundType p));
      [|destruct (isImagePage (getBackgroundType p) && negb hideImage);
        [|destruct (negb hideRuling)]]|]); reflexivity.
Qed.

(** X17. An area is used for one [drawPage] only, and the audio mark for
    all that follow: of two calls in a row, the second draws the visible
    layers whole, with the audio mark set before the first. *)
Theorem X17_area_once_mark_kept `{Toolkit} this mark x y w h
    p1 cr1 dont1 hidePdf1 hideImage1 hideRuling1 this1 calls1
    p2 cr2 dont2 hidePdf2 hideImage2 hideRuling2 this2 calls2 :
  drawPage (limitArea (setMarkAudioStroke this mark) x y w h) (Some p1) cr1
    dont1 hidePdf1 hideImage1 hideRuling1 = Some (this1, calls1) ->
  drawPage this1 (Some p2) cr2 dont2 hidePdf2 hideImage2 hideRuling2 =
  Some (this2, calls2) ->
  filter is_layer_call calls2 =
  map (fun layer =>
         LayerView_draw layer (mkContext cr2 mark (negb dont2) NORMAL_COLOR))
      (filter isVisible (getLayers p2)).
Proof.
  rewrite !drawPage_page. intros [= <- _]. intros [= _ <-].
  cbn [limitArea setMarkAudioStroke lX lY lWidth lHeight markAudioStroke].
  rewrite filter_app, filter_layer_calls.
  change (is_minus_one minus_one) with true. cbn [layer_call].
  destruct (isLayerVisible p2 0);
    [destruct (isPdfPage (getBackgroundType p2));
     [|destruct (isImagePage (getBackgroundType p2) && negb hideImage2);
       [|destruct (negb hideRuling2)]]|]; reflexivity.
Qed.

(** ** Drawing a page, at a concrete page *)

Lemma X14_visible_layers_in_order_witness :
  exists this' calls,
    drawPage demo_view (Some demo_page) (Some 5) false false false false =
    Some (this', calls) /\
    filter is_layer_call calls =
    [@LayerView_draw demo_toolkit (1, true) (@mkContext demo_toolkit (Some 5) false true NORMAL_COLOR);
     @LayerView_draw demo_toolkit (3, true) (@mkContext demo_toolkit (Some 5) false true NORMAL_COLOR)] /\
    calls =
    filter (fun c => negb (is_layer_call c)) calls ++
    filter is_layer_call calls /\
    (List.length (filter (fun c => negb (is_layer_call c)) calls) <= 1)%nat.
Proof.
  destruct (drawPage demo_view (Some demo_page) (Some 5) false false false
              false) as [[this' calls]|] eqn:E.
  - exists this', calls. split; [reflexivity|].
    exact (X14_visible_layers_in_order demo_view demo_page (Some 5) false
             false false false this' calls E).
  - rewrite drawPage_page in E. discriminate E.
Defined.

Lemma X15_background_witness :
  exists this' calls,
    drawPage demo_view (Some demo_page) (Some 5) false false false false =
    Some (this', calls) /\
    filter (fun c => negb (is_layer_call c)) calls =
    [@ImageBackgroundView_draw demo_toolkit 7 PrimFloat.two PrimFloat.one (Some 5)] /\
    drawPage demo_view (Some demo_page) (Some 5) false true false false =
    Some (this', calls).
Proof.
  destruct (drawPage demo_view (Some demo_page) (Some 5) false false false
              false) as [[this' calls]|] eqn:E.
  - exists this', calls. split; [reflexivity|].
    exact (X15_background demo_view demo_page (Some 5) false false false
             false this' calls E).
  - rewrite drawPage_page in E. discriminate E.
Defined.

Lemma X16_limitArea_witness :
  exists this' calls,
    drawPage (limitArea demo_view PrimFloat.one PrimFloat.zero PrimFloat.two
                PrimFloat.two)
      (Some demo_page) (Some 5) true false false false =
    Some (this', calls) /\
    filter is_layer_call calls =
    [@LayerView_draw_area demo_toolkit (1, true)
       (@mkContext demo_toolkit (Some 5) false false NORMAL_COLOR)
       (mkRectangle PrimFloat.one PrimFloat.zero PrimFloat.two PrimFloat.two);
     @LayerView_draw_area demo_toolkit (3, true)
       (@mkContext demo_toolkit (Some 5) false false NORMAL_COLOR)
       (mkRectangle PrimFloat.one PrimFloat.zero PrimFloat.two
          PrimFloat.two)].
Proof.
  destruct (drawPage (limitArea demo_view PrimFloat.one PrimFloat.zero
                        PrimFloat.two PrimFloat.two)
              (Some demo_page) (Some 5) true false false false)
    as [[this' calls]|] eqn:E.
  - exists this', calls. split; [reflexivity|].
    apply (X16_limitArea demo_view PrimFloat.one PrimFloat.zero
             PrimFloat.two PrimFloat.two demo_page (Some 5) true false false
             false this' calls E).
    reflexivity.
  - rewrite drawPage_page in E. discriminate E.
Defined.

Lemma X17_area_once_mark_kept_witness :
  exists this1 calls1 this2 calls2,
    drawPage (limitArea (setMarkAudioStroke demo_view true) PrimFloat.one
                PrimFloat.zero PrimFloat.two PrimFloat.two)
      (Some demo_page) (Some 5) false false false false =
    Some (this1, calls1) /\
    drawPage this1 (Some demo_page) (Some 6) false false false false =
    Some (this2, calls2) /\
    filter is_layer_call calls2 =
    [@LayerView_draw demo_toolkit (1, true) (@mkContext demo_toolkit (Some 6) true true NORMAL_COLOR);
     @LayerView_draw demo_toolkit (3, true) (@mkContext demo_toolkit (Some 6) true true NORMAL_COLOR)].
Proof.
  destruct (drawPage (limitArea (setMarkAudioStroke demo_view true)
                        PrimFloat.one PrimFloat.zero PrimFloat.two
                        PrimFloat.two)
              (Some demo_page) (Some 5) false false false false)
    as [[this1 calls1]|] eqn:E1;
    [|rewrite drawPage_page in E1; discriminate E1].
  destruct (drawPage this1 (Some demo_page) (Some 6) false false false false)
    as [[this2 calls2]|] eqn:E2;
    [|rewrite drawPage_page in E2; discriminate E2].
  exists this1, calls1, this2, calls2.
  split; [reflexivity|]. split; [exact E2|].
  exact (X17_area_once_mark_kept demo_view true PrimFloat.one PrimFloat.zero
           PrimFloat.two PrimFloat.two demo_page (Some 5) false false false
           false this1 calls1 demo_page (Some 6) false false false false
           this2 calls2 E1 E2).
Defined.
